(** * Soluna Dial: a shallow embedding of the HUD class and its settings

    The development follows [SolunaDial] (the class that owns the PIXI scene,
    the clock, calendar and weather views and the setters called by the
    settings registry) and the settings declared in [solunaDialSettings.js].

    Modelling choices, all of them visible in the definitions below:
    - a JavaScript number is a value of [number]: a rational, [NaN] or an
      infinity; the sign of zero is not kept.  The arithmetic of
      [_calculateScaledDimensions] is that of binary64: every result is
      rounded to the nearest double, a tie going to the even one, and
      overflows to an infinity ([round64]).  The arithmetic of the clock and
      of the dial rotation is exact; for the clock, on integer world times
      below 2^53, that is the arithmetic of binary64 too;
    - a JavaScript string is a [string] of 8-bit characters, standing for a
      string of ASCII characters: case mapping and white space are those of
      JavaScript on such strings, and every other character is left alone;
    - an exception is the [Throws] outcome of the [Outcome] monad;
    - the display objects held in the fields of [this] are a map from the
      field name ([Slot]) to a [Node]; the children of the main container are
      the list of node identities, bottom first;
    - the host (the [game] object, the calendar module, texture loading) is
      the record [Game]; what the instance sends out (console lines, socket
      messages, notifications, deferred callbacks) is kept in [World];
    - the calendar module has a state of its own for a host that reports
      the module active while no global [SimpleCalendar] is declared:
      reading that identifier throws a ReferenceError;
    - the layout methods that only write coordinates from text metrics, the
      DOM and the drawn paths are not modelled. *)

From Stdlib Require Import ZArith QArith Qround Qreduction Qabs.
From Stdlib Require Import Bool List String Ascii DecimalString Lia.
Import ListNotations.

Local Open Scope Z_scope.

(** ** JavaScript numbers *)

Inductive number : Type :=
| Fin (q : Q)
| NaN
| Infinity (positive : bool).

Declare Scope js_scope.
Delimit Scope js_scope with js.
Bind Scope js_scope with number.

Definition of_Z (z : Z) : number := Fin (inject_Z z).

(** [Qtrunc q] is [q] rounded toward zero. *)
Definition Qtrunc (q : Q) : Z := Z.quot (Qnum q) (Zpos (Qden q)).

Definition Qis_zero (q : Q) : bool := Qeq_bool q 0.
Definition Qis_neg (q : Q) : bool := negb (Qle_bool 0 q).

Definition num_neg (a : number) : number :=
  match a with
  | Fin x => Fin (- x)
  | NaN => NaN
  | Infinity p => Infinity (negb p)
  end.

Definition num_add (a b : number) : number :=
  match a, b with
  | NaN, _ | _, NaN => NaN
  | Fin x, Fin y => Fin (x + y)
  | Infinity p, Fin _ => Infinity p
  | Fin _, Infinity p => Infinity p
  | Infinity p, Infinity p' => if Bool.eqb p p' then Infinity p else NaN
  end.

Definition num_sub (a b : number) : number := num_add a (num_neg b).

Definition num_mul (a b : number) : number :=
  match a, b with
  | NaN, _ | _, NaN => NaN
  | Fin x, Fin y => Fin (x * y)
  | Infinity p, Fin y | Fin y, Infinity p =>
      if Qis_zero y then NaN
      else Infinity (if Qis_neg y then negb p else p)
  | Infinity p, Infinity p' => Infinity (Bool.eqb p p')
  end.

Definition num_div (a b : number) : number :=
  match a, b with
  | NaN, _ | _, NaN => NaN
  | Fin x, Fin y =>
      if Qis_zero y then
        (if Qis_zero x then NaN else Infinity (negb (Qis_neg x)))
      else Fin (x / y)
  | Fin _, Infinity _ => Fin 0
  | Infinity p, Fin y => Infinity (if Qis_neg y then negb p else p)
  | Infinity _, Infinity _ => NaN
  end.

(** The remainder operator [%]: the result has the sign of the dividend. *)
Definition num_rem (a b : number) : number :=
  match a, b with
  | NaN, _ | _, NaN => NaN
  | Infinity _, _ => NaN
  | Fin x, Infinity _ => Fin x
  | Fin x, Fin y =>
      if Qis_zero y then NaN
      else Fin (x - y * inject_Z (Qtrunc (x / y)))
  end.

(** Comparisons: every comparison with [NaN] is false. *)
Definition num_ltb (a b : number) : bool :=
  match a, b with
  | NaN, _ | _, NaN => false
  | Fin x, Fin y => negb (Qle_bool y x)
  | Fin _, Infinity p => p
  | Infinity p, Fin _ => negb p
  | Infinity p, Infinity p' => negb p && p'
  end.

Definition num_leb (a b : number) : bool :=
  match a, b with
  | NaN, _ | _, NaN => false
  | Fin x, Fin y => Qle_bool x y
  | Fin _, Infinity p => p
  | Infinity p, Fin _ => negb p
  | Infinity p, Infinity p' => negb p || p'
  end.

Definition num_gtb (a b : number) : bool := num_ltb b a.
Definition num_geb (a b : number) : bool := num_leb b a.

(** Strict equality [===] of two numbers. *)
Definition num_eqb (a b : number) : bool :=
  match a, b with
  | Fin x, Fin y => Qeq_bool x y
  | Infinity p, Infinity p' => Bool.eqb p p'
  | _, _ => false
  end.

Infix "+" := num_add : js_scope.
Infix "-" := num_sub : js_scope.
Infix "*" := num_mul : js_scope.
Infix "/" := num_div : js_scope.
(** [a %% b] is the remainder [a % b] of JavaScript. *)
Infix "%%" := num_rem (at level 40, left associativity) : js_scope.
Infix "<?" := num_ltb : js_scope.
Infix "<=?" := num_leb : js_scope.
Infix ">?" := num_gtb : js_scope.
Infix ">=?" := num_geb : js_scope.

(** Numeric literals of the source. *)
Definition lit (z : Z) : number := of_Z z.
Definition lit_frac (n : Z) (d : positive) : number := Fin (n # d).

Definition Math_floor (a : number) : number :=
  match a with
  | Fin x => of_Z (Qfloor x)
  | other => other
  end.

(** [Math.round]: the nearest integer, a tie going up. *)
Definition Math_round (a : number) : number :=
  match a with
  | Fin x => of_Z (Qfloor (x + (1 # 2)))
  | other => other
  end.

Definition Math_max (a b : number) : number :=
  match a, b with
  | NaN, _ | _, NaN => NaN
  | _, _ => if num_ltb a b then b else a
  end.

(** [Math.PI] is the double nearest to pi, a dyadic rational. *)
Definition Math_PI : number := Fin (884279719003555 # 281474976710656).

(** *** Binary64

    [pow2 e] is 2^e.  [binade a], for [a > 0], is the exponent [e] with
    2^e <= a < 2^(e+1).  A double in that binade is a multiple of
    2^(e-52); below 2^-1022 the doubles are the multiples of 2^-1074. *)
Definition pow2 (e : Z) : Q :=
  if (0 <=? e)%Z then inject_Z (2 ^ e) else 1 # (Z.to_pos (2 ^ (- e))).

Definition binade (a : Q) : Z :=
  let e := (Z.log2 (Qnum a) - Z.log2 (Zpos (Qden a)))%Z in
  if Qle_bool (pow2 e) a then e else (e - 1)%Z.

(** The nearest integer, a tie going to the even one. *)
Definition round_half_even (q : Q) : Z :=
  let f := Qfloor q in
  match Qcompare (q - inject_Z f) (1 # 2) with
  | Lt => f
  | Gt => (f + 1)%Z
  | Eq => if Z.even f then f else (f + 1)%Z
  end.

(** [round64 q]: the double nearest to [q], a tie going to the one with the
    even significand; from 2^1024 - 2^970 on, the infinity of the sign. *)
Definition round64 (q : Q) : number :=
  if Qis_zero q then Fin 0
  else
    let a := Qabs q in
    let ulp := pow2 (Z.max (binade a - 52) (-1074)) in
    let r := (inject_Z (round_half_even (a / ulp)) * ulp)%Q in
    if Qle_bool (pow2 1024) r then Infinity (negb (Qis_neg q))
    else Fin (Qred (if Qis_neg q then - r else r)).

Definition to_double (a : number) : number :=
  match a with
  | Fin q => round64 q
  | other => other
  end.

(** The four operations on doubles: the exact result, rounded. *)
Definition add64 (a b : number) : number := to_double (a + b).
Definition sub64 (a b : number) : number := to_double (a - b).
Definition mul64 (a b : number) : number := to_double (a * b).
Definition div64 (a b : number) : number := to_double (a / b).

(** A decimal literal of the source that is not an integer, [n/d]: the
    double nearest to it. *)
Definition lit_double (n : Z) (d : positive) : number := round64 (n # d).

(** The mathematical value of two numbers is the same. *)
Definition num_eq (a b : number) : Prop :=
  match a, b with
  | Fin x, Fin y => x == y
  | NaN, NaN => True
  | Infinity p, Infinity p' => p = p'
  | _, _ => False
  end.

Infix "=n=" := num_eq (at level 70, no associativity).

Definition is_finite (a : number) : bool :=
  match a with Fin _ => true | _ => false end.

(** [a] is the integer [z]. *)
Definition is_int (a : number) (z : Z) : Prop := a =n= of_Z z.

(** ** JavaScript strings *)

Local Open Scope string_scope.

Definition is_upper (c : ascii) : bool :=
  let n := nat_of_ascii c in (65 <=? n)%nat && (n <=? 90)%nat.
Definition is_lower (c : ascii) : bool :=
  let n := nat_of_ascii c in (97 <=? n)%nat && (n <=? 122)%nat.

Definition char_toUpperCase (c : ascii) : ascii :=
  if is_lower c then ascii_of_nat (nat_of_ascii c - 32) else c.
Definition char_toLowerCase (c : ascii) : ascii :=
  if is_upper c then ascii_of_nat (nat_of_ascii c + 32) else c.

Fixpoint string_map (f : ascii -> ascii) (s : string) : string :=
  match s with
  | EmptyString => EmptyString
  | String c r => String (f c) (string_map f r)
  end.

Definition toUpperCase : string -> string := string_map char_toUpperCase.
Definition toLowerCase : string -> string := string_map char_toLowerCase.

(** White space of [trim] and of the regular expression class [\s]:
    tab, line feed, vertical tab, form feed, carriage return and space. *)
Definition is_space (c : ascii) : bool :=
  let n := nat_of_ascii c in ((9 <=? n)%nat && (n <=? 13)%nat) || (n =? 32)%nat.

Fixpoint all_space (s : string) : bool :=
  match s with
  | EmptyString => true
  | String c r => is_space c && all_space r
  end.

Fixpoint trimStart (s : string) : string :=
  match s with
  | EmptyString => EmptyString
  | String c r => if is_space c then trimStart r else s
  end.

Fixpoint trimEnd (s : string) : string :=
  match s with
  | EmptyString => EmptyString
  | String c r => if all_space s then EmptyString else String c (trimEnd r)
  end.

Definition trim (s : string) : string := trimEnd (trimStart s).

(** [s.replace(/,\s*$/, "")]: a comma followed only by white space up to
    the end of the string is removed together with that white space. *)
Fixpoint replace_trailing_comma (s : string) : string :=
  match s with
  | EmptyString => EmptyString
  | String c r =>
      if Ascii.eqb c "," && all_space r then EmptyString
      else String c (replace_trailing_comma r)
  end.

(** [fill pad k]: the first [k] characters of [pad] repeated. *)
Fixpoint fill_from (pad cur : string) (k : nat) : string :=
  match k with
  | O => EmptyString
  | S k' =>
      match cur with
      | String c r => String c (fill_from pad r k')
      | EmptyString =>
          match pad with
          | String c r => String c (fill_from pad r k')
          | EmptyString => EmptyString
          end
      end
  end.

Definition padStart (targetLength : nat) (padString : string) (s : string) : string :=
  if (targetLength <=? String.length s)%nat then s
  else fill_from padString padString (targetLength - String.length s) ++ s.

Definition Z_toString (z : Z) : string := NilEmpty.string_of_int (Z.to_int z).

(** [String(n)] for a number.  An integer prints in decimal (the exponent
    form that JavaScript uses from 10^21 on is not modelled).  A finite value
    that is not an integer prints in JavaScript as the shortest decimal that
    reads back as the same double; exact rationals have no such form, so it
    is printed here as the reduced fraction.  Every number the program
    prints comes out of [Math.floor]. *)
Definition Number_toString (a : number) : string :=
  match a with
  | NaN => "NaN"
  | Infinity true => "Infinity"
  | Infinity false => "-Infinity"
  | Fin q =>
      let r := Qred q in
      if Pos.eqb (Qden r) 1 then Z_toString (Qnum r)
      else Z_toString (Qnum r) ++ "/" ++ Z_toString (Zpos (Qden r))
  end.

(** ** JavaScript values, as the setters receive them *)

Inductive JsValue : Type :=
| VUndefined
| VNull
| VBool (b : bool)
| VNumber (n : number)
| VString (s : string)
| VObject.

Inductive JsType := TUndefined | TObject | TBoolean | TNumber | TString.

Definition typeof (v : JsValue) : JsType :=
  match v with
  | VUndefined => TUndefined
  | VNull | VObject => TObject
  | VBool _ => TBoolean
  | VNumber _ => TNumber
  | VString _ => TString
  end.

(** Truthiness of a number and of a string. *)
Definition num_truthy (a : number) : bool :=
  match a with
  | Fin q => negb (Qis_zero q)
  | NaN => false
  | Infinity _ => true
  end.

Definition str_truthy (s : string) : bool :=
  match s with EmptyString => false | _ => true end.

Definition truthy (v : JsValue) : bool :=
  match v with
  | VUndefined | VNull => false
  | VBool b => b
  | VNumber n => num_truthy n
  | VString s => str_truthy s
  | VObject => true
  end.

(** [a || b] on numbers and on strings. *)
Definition num_or (a b : number) : number := if num_truthy a then a else b.
Definition str_or (a b : string) : string := if str_truthy a then a else b.

(** ** Outcomes: a call returns or throws *)

Inductive Outcome (A : Type) : Type :=
| Returns (a : A)
| Throws (e : string).
Arguments Returns {A} a.
Arguments Throws {A} e.

Definition bind {A B : Type} (m : Outcome A) (k : A -> Outcome B) : Outcome B :=
  match m with
  | Returns a => k a
  | Throws e => Throws e
  end.

Notation "x <- m ;; k" := (bind m (fun x => k))
  (at level 61, m at next level, right associativity).

(** ** The host: user, clock, settings store, calendar module, textures *)

(** What [SimpleCalendar.api.currentDateTimeDisplay()] returns; a field that
    is missing is the empty string (both are falsy). *)
Record DateTimeDisplay : Type := {
  date : string;
  day : string;
  monthName : string;
  year : string;
  yearPrefix : string;
  yearPostfix : string
}.

Inductive ApiCall : Type :=
| ApiThrows
| ApiReturns (r : option DateTimeDisplay).

(** The calendar collaborator.  [ScNotActive]: the module is missing or not
    active.  The other three have the module active.  [ScUndeclared]: no
    global [SimpleCalendar] is declared (the script of the module has not
    run, or has failed).  [ScNoApi]: the global is declared and is
    undefined, or is an object without [api].  [ScApi]: the global is an
    object with an [api]. *)
Inductive SimpleCalendarModule : Type :=
| ScNotActive
| ScUndeclared
| ScNoApi
| ScApi (currentDateTimeDisplay : ApiCall).

(** Reading the identifier [SimpleCalendar] where none is declared. *)
Definition ReferenceError_SimpleCalendar : string :=
  "ReferenceError: SimpleCalendar is not defined".

(** What [PIXI.Texture.from(imagePath)] does: a texture, the empty texture,
    or an exception. *)
Inductive TextureOutcome := TextureLoaded | TextureEmpty | TextureThrows.

(** The host as the class reads it: [game.user], [game.ready],
    [game.time.worldTime], the stored settings of the module (numbers and
    strings, as registered), whether a write to the settings store is
    rejected, the calendar module and the texture loader. *)
Record Game : Type := {
  user_isGM : bool;
  user_id : string;
  game_ready : bool;
  time_worldTime : number;
  settings_customDialImage : string;
  settings_customDialImageAngleOffset : number;
  settings_currentWeather : string;
  settings_set_rejects : bool;
  simpleCalendar : SimpleCalendarModule;
  Texture_from : string -> TextureOutcome
}.

Definition persist_currentWeather (weather : string) (g : Game) : Game :=
  {| user_isGM := user_isGM g; user_id := user_id g; game_ready := game_ready g;
     time_worldTime := time_worldTime g;
     settings_customDialImage := settings_customDialImage g;
     settings_customDialImageAngleOffset := settings_customDialImageAngleOffset g;
     settings_currentWeather := weather;
     settings_set_rejects := settings_set_rejects g;
     simpleCalendar := simpleCalendar g;
     Texture_from := Texture_from g |}.

(** ** The instance *)

(** The scaled dimensions, the fields written by
    [_calculateScaledDimensions]. *)
Record Dimensions : Type := {
  HUD_WIDTH : number;
  primaryFontSize : number;
  calendarFontSize : number;
  iconFontSize : number;
  TIME_BAR_TEXT_TOP_PADDING : number;
  TIME_BAR_TEXT_BOTTOM_PADDING : number;
  TIME_BAR_HEIGHT : number;
  MAIN_HUD_AREA_HEIGHT : number;
  TOTAL_HUD_HEIGHT : number;
  CORNER_RADIUS : number;
  PADDING : number;
  BUTTON_PADDING : number;
  DIAL_CENTER_X : number;
  MAIN_HUD_AREA_Y_OFFSET : number;
  DIAL_RADIUS : number;
  DIAL_ARC_CENTER_Y : number;
  MARKER_SIZE : number;
  weatherTextPaddingTop : number
}.

(** The fields of [this] that hold a display object. *)
Inductive Slot : Type :=
| _timeBarGraphic | _mainHudAreaGraphic | _radialDialBackground | _dialMarker
| _timeCalendarContainer | _timeText | _timeCalendarSeparator | _calendarText
| _rewindHourButton | _rewindDayButton | _advanceHourButton | _advanceDayButton
| _dialGradientContainer | _dialGradientSprite | _dialMask
| _weatherText | _dialInteractiveArea.

Definition Slot_eq_dec (a b : Slot) : {a = b} + {a <> b}.
Proof. decide equality. Defined.

(** A display object: its identity and the properties the class writes.
    Positions, sizes and the drawn paths are not kept. *)
Record Node : Type := {
  node_id : nat;
  text : string;
  visible : bool;
  alpha : number;
  rotation : number;
  fill_alpha : number
}.

Definition fresh_node (id : nat) : Node :=
  {| node_id := id; text := ""; visible := true; alpha := lit 1;
     rotation := lit 0; fill_alpha := lit 1 |}.

Definition with_text (s : string) (n : Node) : Node :=
  {| node_id := node_id n; text := s; visible := visible n; alpha := alpha n;
     rotation := rotation n; fill_alpha := fill_alpha n |}.
Definition with_visible (b : bool) (n : Node) : Node :=
  {| node_id := node_id n; text := text n; visible := b; alpha := alpha n;
     rotation := rotation n; fill_alpha := fill_alpha n |}.
Definition with_alpha (a : number) (n : Node) : Node :=
  {| node_id := node_id n; text := text n; visible := visible n; alpha := a;
     rotation := rotation n; fill_alpha := fill_alpha n |}.
Definition with_rotation (r : number) (n : Node) : Node :=
  {| node_id := node_id n; text := text n; visible := visible n; alpha := alpha n;
     rotation := r; fill_alpha := fill_alpha n |}.
Definition with_fill_alpha (a : number) (n : Node) : Node :=
  {| node_id := node_id n; text := text n; visible := visible n; alpha := alpha n;
     rotation := rotation n; fill_alpha := a |}.

(** The fields of an instance of the class. *)
Record SolunaDial : Type := {
  dims : Dimensions;
  _globalUiScale : number;
  _currentWeather : string;
  _topBarOpacity : number;
  _dialImageOpacity : number;
  _dialMarkerOpacity : number;
  _globalFontOpacity : number;
  _globalFontFamily : string;
  _displaySeconds : bool;
  (** the renderer size of [_pixiApp], when the application exists *)
  _pixiApp : option (number * number);
  (** the children of [_mainContainer], bottom first *)
  _mainContainer : option (list nat);
  nodes : Slot -> option Node;
  (** identity of the next object made by [new] *)
  next_id : nat
}.

Inductive LogLevel := LevelLog | LevelWarn | LevelError.

(** A console line: its level and the fixed part of its text. *)
Record LogEntry : Type := { level : LogLevel; message : string }.

(** A message on the module's socket; the weather it carries is a string,
    as [dialog_update_callback] sends it. *)
Record SocketData : Type := {
  data_type : string;
  data_weather : string;
  data_userId : string
}.

(** The two functions that the code defers with [setTimeout]. *)
Inductive Callback := EnsureWeatherTextOnTop | LoadWeatherFromFlag.

(** The host, the instance, and what the instance has sent out so far. *)
Record World : Type := {
  game : Game;
  hud : SolunaDial;
  console : list LogEntry;
  emitted : list SocketData;
  notifications : list string;
  (** callbacks given to [setTimeout], with their delay in milliseconds *)
  timeouts : list (Z * Callback)
}.

(** Field updates. *)

Definition set_dims v (h : SolunaDial) : SolunaDial :=
  {| dims := v; _globalUiScale := _globalUiScale h;
     _currentWeather := _currentWeather h;
     _topBarOpacity := _topBarOpacity h;
     _dialImageOpacity := _dialImageOpacity h;
     _dialMarkerOpacity := _dialMarkerOpacity h;
     _globalFontOpacity := _globalFontOpacity h;
     _globalFontFamily := _globalFontFamily h;
     _displaySeconds := _displaySeconds h; _pixiApp := _pixiApp h;
     _mainContainer := _mainContainer h; nodes := nodes h;
     next_id := next_id h |}.
Definition set_globalUiScale v (h : SolunaDial) : SolunaDial :=
  {| dims := dims h; _globalUiScale := v;
     _currentWeather := _currentWeather h;
     _topBarOpacity := _topBarOpacity h;
     _dialImageOpacity := _dialImageOpacity h;
     _dialMarkerOpacity := _dialMarkerOpacity h;
     _globalFontOpacity := _globalFontOpacity h;
     _globalFontFamily := _globalFontFamily h;
     _displaySeconds := _displaySeconds h; _pixiApp := _pixiApp h;
     _mainContainer := _mainContainer h; nodes := nodes h;
     next_id := next_id h |}.
Definition set_currentWeather v (h : SolunaDial) : SolunaDial :=
  {| dims := dims h; _globalUiScale := _globalUiScale h;
     _currentWeather := v; _topBarOpacity := _topBarOpacity h;
     _dialImageOpacity := _dialImageOpacity h;
     _dialMarkerOpacity := _dialMarkerOpacity h;
     _globalFontOpacity := _globalFontOpacity h;
     _globalFontFamily := _globalFontFamily h;
     _displaySeconds := _displaySeconds h; _pixiApp := _pixiApp h;
     _mainContainer := _mainContainer h; nodes := nodes h;
     next_id := next_id h |}.
Definition set_topBarOpacity v (h : SolunaDial) : SolunaDial :=
  {| dims := dims h; _globalUiScale := _globalUiScale h;
     _currentWeather := _currentWeather h; _topBarOpacity := v;
     _dialImageOpacity := _dialImageOpacity h;
     _dialMarkerOpacity := _dialMarkerOpacity h;
     _globalFontOpacity := _globalFontOpacity h;
     _globalFontFamily := _globalFontFamily h;
     _displaySeconds := _displaySeconds h; _pixiApp := _pixiApp h;
     _mainContainer := _mainContainer h; nodes := nodes h;
     next_id := next_id h |}.
Definition set_dialImageOpacity v (h : SolunaDial) : SolunaDial :=
  {| dims := dims h; _globalUiScale := _globalUiScale h;
     _currentWeather := _currentWeather h;
     _topBarOpacity := _topBarOpacity h; _dialImageOpacity := v;
     _dialMarkerOpacity := _dialMarkerOpacity h;
     _globalFontOpacity := _globalFontOpacity h;
     _globalFontFamily := _globalFontFamily h;
     _displaySeconds := _displaySeconds h; _pixiApp := _pixiApp h;
     _mainContainer := _mainContainer h; nodes := nodes h;
     next_id := next_id h |}.
Definition set_dialMarkerOpacity v (h : SolunaDial) : SolunaDial :=
  {| dims := dims h; _globalUiScale := _globalUiScale h;
     _currentWeather := _currentWeather h;
     _topBarOpacity := _topBarOpacity h;
     _dialImageOpacity := _dialImageOpacity h; _dialMarkerOpacity := v;
     _globalFontOpacity := _globalFontOpacity h;
     _globalFontFamily := _globalFontFamily h;
     _displaySeconds := _displaySeconds h; _pixiApp := _pixiApp h;
     _mainContainer := _mainContainer h; nodes := nodes h;
     next_id := next_id h |}.
Definition set_globalFontOpacity v (h : SolunaDial) : SolunaDial :=
  {| dims := dims h; _globalUiScale := _globalUiScale h;
     _currentWeather := _currentWeather h;
     _topBarOpacity := _topBarOpacity h;
     _dialImageOpacity := _dialImageOpacity h;
     _dialMarkerOpacity := _dialMarkerOpacity h; _globalFontOpacity := v;
     _globalFontFamily := _globalFontFamily h;
     _displaySeconds := _displaySeconds h; _pixiApp := _pixiApp h;
     _mainContainer := _mainContainer h; nodes := nodes h;
     next_id := next_id h |}.
Definition set_globalFontFamily v (h : SolunaDial) : SolunaDial :=
  {| dims := dims h; _globalUiScale := _globalUiScale h;
     _currentWeather := _currentWeather h;
     _topBarOpacity := _topBarOpacity h;
     _dialImageOpacity := _dialImageOpacity h;
     _dialMarkerOpacity := _dialMarkerOpacity h;
     _globalFontOpacity := _globalFontOpacity h; _globalFontFamily := v;
     _displaySeconds := _displaySeconds h; _pixiApp := _pixiApp h;
     _mainContainer := _mainContainer h; nodes := nodes h;
     next_id := next_id h |}.
Definition set_displaySeconds v (h : SolunaDial) : SolunaDial :=
  {| dims := dims h; _globalUiScale := _globalUiScale h;
     _currentWeather := _currentWeather h;
     _topBarOpacity := _topBarOpacity h;
     _dialImageOpacity := _dialImageOpacity h;
     _dialMarkerOpacity := _dialMarkerOpacity h;
     _globalFontOpacity := _globalFontOpacity h;
     _globalFontFamily := _globalFontFamily h; _displaySeconds := v;
     _pixiApp := _pixiApp h; _mainContainer := _mainContainer h;
     nodes := nodes h; next_id := next_id h |}.
Definition set_pixiApp v (h : SolunaDial) : SolunaDial :=
  {| dims := dims h; _globalUiScale := _globalUiScale h;
     _currentWeather := _currentWeather h;
     _topBarOpacity := _topBarOpacity h;
     _dialImageOpacity := _dialImageOpacity h;
     _dialMarkerOpacity := _dialMarkerOpacity h;
     _globalFontOpacity := _globalFontOpacity h;
     _globalFontFamily := _globalFontFamily h;
     _displaySeconds := _displaySeconds h; _pixiApp := v;
     _mainContainer := _mainContainer h; nodes := nodes h;
     next_id := next_id h |}.
Definition set_mainContainer v (h : SolunaDial) : SolunaDial :=
  {| dims := dims h; _globalUiScale := _globalUiScale h;
     _currentWeather := _currentWeather h;
     _topBarOpacity := _topBarOpacity h;
     _dialImageOpacity := _dialImageOpacity h;
     _dialMarkerOpacity := _dialMarkerOpacity h;
     _globalFontOpacity := _globalFontOpacity h;
     _globalFontFamily := _globalFontFamily h;
     _displaySeconds := _displaySeconds h; _pixiApp := _pixiApp h;
     _mainContainer := v; nodes := nodes h; next_id := next_id h |}.
Definition set_nodes v (h : SolunaDial) : SolunaDial :=
  {| dims := dims h; _globalUiScale := _globalUiScale h;
     _currentWeather := _currentWeather h;
     _topBarOpacity := _topBarOpacity h;
     _dialImageOpacity := _dialImageOpacity h;
     _dialMarkerOpacity := _dialMarkerOpacity h;
     _globalFontOpacity := _globalFontOpacity h;
     _globalFontFamily := _globalFontFamily h;
     _displaySeconds := _displaySeconds h; _pixiApp := _pixiApp h;
     _mainContainer := _mainContainer h; nodes := v; next_id := next_id h |}.
Definition set_next_id v (h : SolunaDial) : SolunaDial :=
  {| dims := dims h; _globalUiScale := _globalUiScale h;
     _currentWeather := _currentWeather h;
     _topBarOpacity := _topBarOpacity h;
     _dialImageOpacity := _dialImageOpacity h;
     _dialMarkerOpacity := _dialMarkerOpacity h;
     _globalFontOpacity := _globalFontOpacity h;
     _globalFontFamily := _globalFontFamily h;
     _displaySeconds := _displaySeconds h; _pixiApp := _pixiApp h;
     _mainContainer := _mainContainer h; nodes := nodes h; next_id := v |}.

Definition set_game v (w : World) : World :=
  {| game := v; hud := hud w; console := console w; emitted := emitted w;
     notifications := notifications w; timeouts := timeouts w |}.
Definition set_hud v (w : World) : World :=
  {| game := game w; hud := v; console := console w; emitted := emitted w;
     notifications := notifications w; timeouts := timeouts w |}.
Definition set_console v (w : World) : World :=
  {| game := game w; hud := hud w; console := v; emitted := emitted w;
     notifications := notifications w; timeouts := timeouts w |}.
Definition set_emitted v (w : World) : World :=
  {| game := game w; hud := hud w; console := console w; emitted := v;
     notifications := notifications w; timeouts := timeouts w |}.
Definition set_notifications v (w : World) : World :=
  {| game := game w; hud := hud w; console := console w;
     emitted := emitted w; notifications := v; timeouts := timeouts w |}.
Definition set_timeouts v (w : World) : World :=
  {| game := game w; hud := hud w; console := console w;
     emitted := emitted w; notifications := notifications w; timeouts := v |}.

(** ** Console, fields and the scene graph *)

Definition on_hud (f : SolunaDial -> SolunaDial) (w : World) : World :=
  set_hud (f (hud w)) w.

Definition console_line (l : LogLevel) (msg : string) (w : World) : World :=
  set_console (console w ++ [{| level := l; message := msg |}]) w.
Definition console_log := console_line LevelLog.
Definition console_warn := console_line LevelWarn.
Definition console_error := console_line LevelError.

Definition setTimeout (cb : Callback) (delay : Z) (w : World) : World :=
  set_timeouts (timeouts w ++ [(delay, cb)]) w.

(** [this.<slot>] and [this.<slot> = v]. *)
Definition slot (s : Slot) (w : World) : option Node := nodes (hud w) s.

Definition assign (s : Slot) (v : option Node) (h : SolunaDial) : SolunaDial :=
  set_nodes (fun s' => if Slot_eq_dec s' s then v else nodes h s') h.

(** A property write [this.<slot>.p = v], the slot holding an object. *)
Definition update (s : Slot) (f : Node -> Node) (h : SolunaDial) : SolunaDial :=
  match nodes h s with
  | Some n => assign s (Some (f n)) h
  | None => h
  end.

(** [new PIXI.Graphics()], [new PIXI.Text(..)], ...: an object that no
    field and no container holds yet. *)
Definition new_object (h : SolunaDial) : Node * SolunaDial :=
  (fresh_node (next_id h), set_next_id (S (next_id h)) h).

(** [container.addChild(child)]: the child leaves the container it is in
    and becomes the last child. *)
Definition addChild (id : nat) (children : list nat) : list nat :=
  remove Nat.eq_dec id children ++ [id].

Definition mainContainer_addChild (n : Node) (h : SolunaDial) : SolunaDial :=
  set_mainContainer (option_map (addChild (node_id n)) (_mainContainer h)) h.

(** [object.destroy()]: the object leaves its parent.  Every object the
    class destroys is a child of the main container or was one. *)
Definition destroy (n : Node) (h : SolunaDial) : SolunaDial :=
  set_mainContainer
    (option_map (remove Nat.eq_dec (node_id n)) (_mainContainer h)) h.

Fixpoint index_of (id : nat) (l : list nat) : option nat :=
  match l with
  | [] => None
  | x :: r => if Nat.eqb x id then Some O else option_map S (index_of id r)
  end.

Definition remove_at (k : nat) (l : list nat) : list nat :=
  firstn k l ++ skipn (S k) l.
Definition insert_at (k : nat) (x : nat) (l : list nat) : list nat :=
  firstn k l ++ x :: skipn k l.

(** [container.setChildIndex(child, index)] of PIXI: the index is checked
    against the number of children, then the child is looked up, taken out
    and put back at [index]. *)
Definition setChildIndex (id : nat) (index : Z) (children : list nat)
  : Outcome (list nat) :=
  if (index <? 0)%Z || (Z.of_nat (List.length children) <=? index)%Z then
    Throws "setChildIndex: The supplied index is out of bounds"
  else
    match index_of id children with
    | None => Throws "The supplied DisplayObject must be a child of the caller"
    | Some cur => Returns (insert_at (Z.to_nat index) id (remove_at cur children))
    end.

(** ** Base (1.0 scale) dimensions and values *)

Definition BASE_HUD_WIDTH := lit 400.
Definition BASE_PRIMARY_FONT_SIZE := lit 18.
Definition BASE_ICON_FONT_SIZE := lit 18.
Definition BASE_TIME_BAR_TEXT_TOP_PADDING := lit 7.
Definition BASE_TIME_BAR_TEXT_BOTTOM_PADDING := lit 7.
Definition BASE_MAIN_HUD_AREA_HEIGHT := lit 150.
Definition BASE_CORNER_RADIUS := lit 15.
Definition BASE_PADDING := lit 10.
Definition BASE_BUTTON_PADDING := lit 5.
Definition BASE_MARKER_SIZE := lit 10.
Definition BASE_WEATHER_TEXT_PADDING_TOP := lit 5.
Definition DEFAULT_FONT_FAMILY := "Signika".

(** The icons are code points of the icon font, written here by their
    escapes. *)
Definition ICON_REWIND_HOUR := "\uf04b".
Definition ICON_REWIND_DAY := "\uf049".
Definition ICON_ADVANCE_HOUR := "\uf04b".
Definition ICON_ADVANCE_DAY := "\uf050".

Local Open Scope js_scope.

(** The assignments of [_calculateScaledDimensions], for [scale]; the
    products, sums, the difference and the quotient are those of binary64,
    and [0.8] is the double nearest to 8/10. *)
Definition scaled_dimensions (scale : number) : Dimensions :=
  let HUD_WIDTH' := Math_round (mul64 BASE_HUD_WIDTH scale) in
  let primaryFontSize' :=
    Math_max (lit 8) (Math_round (mul64 BASE_PRIMARY_FONT_SIZE scale)) in
  let calendarFontSize' := primaryFontSize' in
  let iconFontSize' :=
    Math_max (lit 10) (Math_round (mul64 BASE_ICON_FONT_SIZE scale)) in
  let TOP := Math_round (mul64 BASE_TIME_BAR_TEXT_TOP_PADDING scale) in
  let BOTTOM := Math_round (mul64 BASE_TIME_BAR_TEXT_BOTTOM_PADDING scale) in
  let TIME_BAR_HEIGHT' := add64 (add64 TOP primaryFontSize') BOTTOM in
  let MAIN_HUD_AREA_HEIGHT' :=
    Math_round (mul64 BASE_MAIN_HUD_AREA_HEIGHT scale) in
  let TOTAL_HUD_HEIGHT' := add64 TIME_BAR_HEIGHT' MAIN_HUD_AREA_HEIGHT' in
  let CORNER_RADIUS' := Math_round (mul64 BASE_CORNER_RADIUS scale) in
  let PADDING' := Math_round (mul64 BASE_PADDING scale) in
  let BUTTON_PADDING' := Math_round (mul64 BASE_BUTTON_PADDING scale) in
  let DIAL_CENTER_X' := div64 HUD_WIDTH' (lit 2) in
  let MAIN_HUD_AREA_Y_OFFSET' := TIME_BAR_HEIGHT' in
  let DIAL_RADIUS' :=
    mul64 (sub64 MAIN_HUD_AREA_HEIGHT' PADDING') (lit_double 8 10) in
  let DIAL_ARC_CENTER_Y' := MAIN_HUD_AREA_Y_OFFSET' in
  let MARKER_SIZE' :=
    Math_max (lit 5) (Math_round (mul64 BASE_MARKER_SIZE scale)) in
  let weatherTextPaddingTop' :=
    Math_round (mul64 BASE_WEATHER_TEXT_PADDING_TOP scale) in
  {| HUD_WIDTH := HUD_WIDTH';
     primaryFontSize := primaryFontSize';
     calendarFontSize := calendarFontSize';
     iconFontSize := iconFontSize';
     TIME_BAR_TEXT_TOP_PADDING := TOP;
     TIME_BAR_TEXT_BOTTOM_PADDING := BOTTOM;
     TIME_BAR_HEIGHT := TIME_BAR_HEIGHT';
     MAIN_HUD_AREA_HEIGHT := MAIN_HUD_AREA_HEIGHT';
     TOTAL_HUD_HEIGHT := TOTAL_HUD_HEIGHT';
     CORNER_RADIUS := CORNER_RADIUS';
     PADDING := PADDING';
     BUTTON_PADDING := BUTTON_PADDING';
     DIAL_CENTER_X := DIAL_CENTER_X';
     MAIN_HUD_AREA_Y_OFFSET := MAIN_HUD_AREA_Y_OFFSET';
     DIAL_RADIUS := DIAL_RADIUS';
     DIAL_ARC_CENTER_Y := DIAL_ARC_CENTER_Y';
     MARKER_SIZE := MARKER_SIZE';
     weatherTextPaddingTop := weatherTextPaddingTop' |}.

Definition _calculateScaledDimensions (w : World) : World :=
  let scale := _globalUiScale (hud w) in
  console_log "Calculated scaled dimensions"
    (on_hud (set_dims (scaled_dimensions scale)) w).

Definition _initPIXIApp (w : World) : World :=
  let h := hud w in
  let size := (HUD_WIDTH (dims h), TOTAL_HUD_HEIGHT (dims h)) in
  console_log "PIXI Application initialized/resized"
    (match _pixiApp h with
     | Some _ => on_hud (set_pixiApp (Some size)) w
     | None =>
         on_hud (fun h => set_mainContainer (Some []) (set_pixiApp (Some size) h)) w
     end).

(** ** Drawing the scene *)

Definition destroy_slot (s : Slot) (h : SolunaDial) : SolunaDial :=
  match nodes h s with
  | Some n => destroy n h
  | None => h
  end.

(** [_ensureWeatherTextOnTop] *)
Definition _ensureWeatherTextOnTop (w : World) : Outcome World :=
  match slot _weatherText w, _mainContainer (hud w) with
  | Some t, Some children =>
      children' <- setChildIndex (node_id t)
                     (Z.of_nat (List.length children) - 1)%Z children ;;
      let t' := with_alpha (_globalFontOpacity (hud w)) (with_visible true t) in
      Returns (console_log "Weather text moved to top"
                 (on_hud (fun h => assign _weatherText (Some t')
                                     (set_mainContainer (Some children') h)) w))
  | _, _ => Returns w
  end.

Definition _drawTimeBar (w : World) : World :=
  match _mainContainer (hud w) with
  | None => w
  | Some _ =>
      on_hud (fun h =>
        let h1 :=
          match nodes h _timeBarGraphic with
          | Some _ => h
          | None =>
              let (g, h0) := new_object h in
              mainContainer_addChild g (assign _timeBarGraphic (Some g) h0)
          end in
        update _timeBarGraphic (with_fill_alpha (_topBarOpacity h1)) h1) w
  end.

Definition _drawMainHudArea (w : World) : World :=
  match _mainContainer (hud w) with
  | None => w
  | Some _ =>
      on_hud (fun h =>
        match nodes h _mainHudAreaGraphic with
        | Some _ => h
        | None =>
            let (g, h0) := new_object h in
            mainContainer_addChild g (assign _mainHudAreaGraphic (Some g) h0)
        end) w
  end.

Definition _drawRadialDialBackground (w : World) : World :=
  match _mainContainer (hud w) with
  | None => w
  | Some _ =>
      on_hud (fun h =>
        let (g, h1) :=
          match nodes h _radialDialBackground with
          | Some g => (g, h)
          | None =>
              let (g, h0) := new_object h in
              (g, assign _radialDialBackground (Some g) h0)
          end in
        mainContainer_addChild g h1) w
  end.

Definition _drawDialMarker (w : World) : World :=
  match _mainContainer (hud w) with
  | None => w
  | Some _ =>
      on_hud (fun h =>
        let (g, h1) :=
          match nodes h _dialMarker with
          | Some g => (g, h)
          | None => new_object h
          end in
        let g' := with_fill_alpha (_dialMarkerOpacity h1) g in
        mainContainer_addChild g' (assign _dialMarker (Some g') h1)) w
  end.

Definition _drawTimeAndCalendarGroup (w : World) : World :=
  match _mainContainer (hud w) with
  | None => w
  | Some _ =>
      on_hud (fun h =>
        let h1 :=
          match nodes h _timeCalendarContainer with
          | Some c =>
              assign _calendarText None
                (assign _timeCalendarSeparator None
                   (assign _timeText None
                      (assign _timeCalendarContainer None (destroy c h))))
          | None => h
          end in
        let (c, h2) := new_object h1 in
        let h3 := mainContainer_addChild c (assign _timeCalendarContainer (Some c) h2) in
        let opacity := _globalFontOpacity h3 in
        let (t, h4) := new_object h3 in
        let h5 := assign _timeText (Some (with_alpha opacity (with_text "HH:MM" t))) h4 in
        let (sep, h6) := new_object h5 in
        let h7 := assign _timeCalendarSeparator
                    (Some (with_alpha opacity (with_text " - " sep))) h6 in
        let (cal, h8) := new_object h7 in
        assign _calendarText
          (Some (with_alpha opacity (with_text "Calendar Loading..." cal))) h8) w
  end.

(** The local [createButton] of [_drawTimeAdvanceControls], followed by the
    assignment of its result to the field. *)
Definition createButton (s : Slot) (iconChar : string) (h : SolunaDial) : SolunaDial :=
  let (b, h1) := new_object h in
  let b' := with_alpha (_globalFontOpacity h1) (with_text iconChar b) in
  assign s (Some b') (mainContainer_addChild b' h1).

Definition _drawTimeAdvanceControls (w : World) : World :=
  match _mainContainer (hud w) with
  | None => w
  | Some _ =>
      let w1 :=
        on_hud (fun h =>
          destroy_slot _advanceDayButton
            (destroy_slot _advanceHourButton
               (destroy_slot _rewindDayButton
                  (destroy_slot _rewindHourButton h)))) w in
      if negb (user_isGM (game w)) then w1
      else
        on_hud (fun h =>
          createButton _advanceDayButton ICON_ADVANCE_DAY
            (createButton _advanceHourButton ICON_ADVANCE_HOUR
               (createButton _rewindDayButton ICON_REWIND_DAY
                  (createButton _rewindHourButton ICON_REWIND_HOUR h)))) w1
  end.

Definition _drawWeatherText (w : World) : Outcome World :=
  match _mainContainer (hud w) with
  | None => Returns w
  | Some _ =>
      _ensureWeatherTextOnTop
        (on_hud (fun h =>
           let h0 := destroy_slot _weatherText h in
           let (t, h1) := new_object h0 in
           let t' := with_alpha (_globalFontOpacity h1)
                       (with_text (_currentWeather h1) t) in
           mainContainer_addChild t' (assign _weatherText (Some t') h1)) w)
  end.

Definition _createDialInteractiveArea (w : World) : World :=
  match _mainContainer (hud w) with
  | None => w
  | Some _ =>
      if negb (user_isGM (game w)) then w
      else
        console_log "Dial interactive area created for GM weather changes"
          (on_hud (fun h =>
             let h0 := destroy_slot _dialInteractiveArea h in
             let (a, h1) := new_object h0 in
             mainContainer_addChild a (assign _dialInteractiveArea (Some a) h1)) w)
  end.

Definition _createDialGradientAndMask (w : World) : World :=
  match _mainContainer (hud w) with
  | None => w
  | Some _ =>
      if DIAL_RADIUS (dims (hud w)) <=? lit 0 then w
      else
        let w1 :=
          on_hud (fun h =>
            match nodes h _dialGradientContainer with
            | Some c =>
                assign _dialMask None
                  (assign _dialGradientSprite None
                     (assign _dialGradientContainer None (destroy c h)))
            | None => h
            end) w in
        let customImage := settings_customDialImage (game w) in
        let imagePath := str_or customImage "modules/soluna-dial/assets/dial.png" in
        match Texture_from (game w) imagePath with
        | TextureEmpty =>
            _createDialInteractiveArea
              (console_log "Dial texture not found, creating interactive area only" w1)
        | TextureThrows =>
            _createDialInteractiveArea
              (console_log "Error loading dial texture, creating interactive area only" w1)
        | TextureLoaded =>
            on_hud (fun h =>
              let (sprite, h1) := new_object h in
              let h2 := assign _dialGradientSprite
                          (Some (with_alpha (_dialImageOpacity h1) sprite)) h1 in
              let (mask, h3) := new_object h2 in
              let h4 := assign _dialMask (Some mask) h3 in
              let (c, h5) := new_object h4 in
              mainContainer_addChild c (assign _dialGradientContainer (Some c) h5)) w1
        end
  end.

Definition _redrawAllElements (w : World) : Outcome World :=
  let w0 :=
    match slot _dialInteractiveArea w with
    | Some a => on_hud (fun h => assign _dialInteractiveArea None (destroy a h)) w
    | None => w
    end in
  let w1 := _drawTimeBar w0 in
  let w2 := _drawMainHudArea w1 in
  let w3 := _drawRadialDialBackground w2 in
  let w4 := _drawDialMarker w3 in
  let w5 := _drawTimeAndCalendarGroup w4 in
  let w6 := _drawTimeAdvanceControls w5 in
  let w7 := _createDialGradientAndMask w6 in
  w8 <- _drawWeatherText w7 ;;
  let w9 := _createDialInteractiveArea w8 in
  w10 <- _ensureWeatherTextOnTop w9 ;;
  Returns (setTimeout EnsureWeatherTextOnTop 50
             (console_log "All elements redrawn." w10)).

(** ** Clock, calendar and dial rotation *)

(** The locals [hours], [minutes], [seconds] of [updateTimeDisplay]. *)
Definition hours_of (worldTime : number) : number :=
  Math_floor (worldTime / lit 3600) %% lit 24.
Definition minutes_of (worldTime : number) : number :=
  Math_floor ((worldTime %% lit 3600) / lit 60).
Definition seconds_of (worldTime : number) : number :=
  Math_floor (worldTime %% lit 60).

(** The local [timeString] of [updateTimeDisplay]. *)
Definition timeString_of (worldTime : number) (displaySeconds : bool) : string :=
  let hours := hours_of worldTime in
  let minutes := minutes_of worldTime in
  let timeString :=
    (padStart 2 "0" (Number_toString hours) ++ ":"
       ++ padStart 2 "0" (Number_toString minutes))%string in
  if displaySeconds then
    let seconds := seconds_of worldTime in
    (timeString ++ ":" ++ padStart 2 "0" (Number_toString seconds))%string
  else timeString.

(** [_repositionElementsInTimeCalendarGroup] and [_centerTimeCalendarGroup]
    write x coordinates computed from text metrics; they change nothing
    that is kept here, and are left out of the callers below. *)
Definition updateTimeDisplay (w : World) : World :=
  match slot _timeText w with
  | None => w
  | Some _ =>
      let worldTime := time_worldTime (game w) in
      let timeString := timeString_of worldTime (_displaySeconds (hud w)) in
      on_hud (update _timeText (with_text timeString)) w
  end.

(** The local [displayDate] of [updateCalendarDisplay], for what the
    calendar returned. *)
Definition displayDate_of (currentDateTime : option DateTimeDisplay) : string :=
  match currentDateTime with
  | Some c =>
      if str_truthy (day c) && str_truthy (monthName c) && str_truthy (year c) then
        let yearPrefix' := str_or (yearPrefix c) "" in
        let yearPostfix' := str_or (yearPostfix c) "" in
        replace_trailing_comma
          (trim (day c ++ " " ++ monthName c ++ ", "
                   ++ yearPrefix' ++ year c ++ yearPostfix')%string)
      else if negb (str_truthy (date c)) then "SC: No date"
      else date c
  | None => "SC: No object"
  end.

(** [updateCalendarDisplay].  Its test
    [game.modules.get('foundryvtt-simple-calendar')?.active && SimpleCalendar?.api]
    stands outside the [try]: with the module active the identifier
    [SimpleCalendar] is read, and where it is not declared that read throws
    a ReferenceError ([?.] guards against a null value, not against a
    missing declaration), which leaves the method. *)
Definition updateCalendarDisplay (w : World) : Outcome World :=
  match slot _calendarText w with
  | None => Returns w
  | Some _ =>
      let write text' :=
        Returns (on_hud (update _calendarText (with_text text')) w) in
      match simpleCalendar (game w) with
      | ScNotActive => write "SC not active"
      | ScUndeclared => Throws ReferenceError_SimpleCalendar
      | ScNoApi => write "SC not active"
      | ScApi (ApiReturns currentDateTime) => write (displayDate_of currentDateTime)
      | ScApi ApiThrows => write "SC: API Err"
      end
  end.

Definition _updateDialRotation (w : World) : World :=
  match slot _dialGradientSprite w with
  | None => w
  | Some _ =>
      let worldTime := time_worldTime (game w) in
      let currentHour := (worldTime / lit 3600) %% lit 24 in
      let baseRotation := (currentHour / lit 24) * Math_PI * lit 2 in
      let angleOffsetDegrees :=
        num_or (settings_customDialImageAngleOffset (game w)) (lit 90) in
      let offsetRotation := (angleOffsetDegrees * Math_PI) / lit 180 in
      on_hud (update _dialGradientSprite
                (with_rotation (baseRotation + offsetRotation))) w
  end.

(** ** Weather *)

Definition updateWeatherDisplay (newStatus : JsValue) (w : World) : Outcome World :=
  match slot _weatherText w with
  | None => Returns w
  | Some _ =>
      let w1 :=
        match newStatus with
        | VString s => on_hud (set_currentWeather s) w
        | _ => w
        end in
      _ensureWeatherTextOnTop
        (on_hud (fun h => update _weatherText
                            (with_text (toUpperCase (_currentWeather h))) h) w1)
  end.

Definition _loadWeatherFromFlag (w : World) : Outcome World :=
  let savedWeather := settings_currentWeather (game w) in
  let w1 :=
    if str_truthy savedWeather then
      console_log "Loaded weather from world setting"
        (on_hud (set_currentWeather savedWeather) w)
    else console_log "No saved weather found, using default" w in
  w2 <- updateWeatherDisplay (VString (_currentWeather (hud w1))) w1 ;;
  _ensureWeatherTextOnTop w2.

(** [_saveWeatherToFlag] awaits the settings store; a rejected write is
    caught and logged. *)
Definition _saveWeatherToFlag (weather : string) (w : World) : World :=
  if settings_set_rejects (game w) then
    console_error "Error saving weather to world setting" w
  else
    console_log "Saved weather to world setting"
      (set_game (persist_currentWeather weather (game w)) w).

Definition socket_emit (data : SocketData) (w : World) : World :=
  set_emitted (emitted w ++ [data]) w.

Definition notifications_info (msg : string) (w : World) : World :=
  set_notifications (notifications w ++ [msg]) w.

Definition weatherOptions : list string :=
  ["Clear"; "Cloudy"; "Overcast"; "Rainy"; "Stormy"; "Foggy";
   "Snowy"; "Windy"; "Hot"; "Cold"; "Humid"; "Dry"]%string.

(** What [_showWeatherChangeDialog] puts in the dialog: the weather it read
    when it opened, each quick-select option with its [selected] mark, and
    the initial text of the custom field. *)
Record WeatherDialog : Type := {
  dialog_currentWeather : string;
  dialog_options : list (string * bool);
  dialog_custom : string
}.

Definition _showWeatherChangeDialog (w : World) : option WeatherDialog :=
  if negb (user_isGM (game w)) then None
  else
    let currentWeather := _currentWeather (hud w) in
    Some {| dialog_currentWeather := currentWeather;
            dialog_options :=
              map (fun weather =>
                     (weather,
                      String.eqb (toLowerCase weather) (toLowerCase currentWeather)))
                  weatherOptions;
            dialog_custom := currentWeather |}.

(** The [callback] of the dialog's update button; [custom] and
    [selectValue] are the values of the two form fields. *)
Definition dialog_update_callback (d : WeatherDialog) (custom selectValue : string)
    (w : World) : Outcome World :=
  let currentWeather := dialog_currentWeather d in
  let customInput := trim custom in
  let newWeather := str_or customInput selectValue in
  if str_truthy newWeather && negb (String.eqb newWeather currentWeather) then
    w1 <- updateWeatherDisplay (VString newWeather)
            (on_hud (set_currentWeather newWeather) w) ;;
    let w2 := notifications_info ("Weather changed to: " ++ newWeather)%string w1 in
    let w3 := _saveWeatherToFlag newWeather w2 in
    Returns (socket_emit {| data_type := "weather-update";
                            data_weather := newWeather;
                            data_userId := user_id (game w3) |} w3)
  else Returns w.

(** The listener on the module's socket, registered by the constructor. *)
Definition on_socket (data : SocketData) (w : World) : Outcome World :=
  if String.eqb (data_type data) "weather-update"
     && negb (String.eqb (data_userId data) (user_id (game w))) then
    let w1 := console_log "Received weather update via socket:" w in
    let w2 := on_hud (set_currentWeather (data_weather data)) w1 in
    w3 <- updateWeatherDisplay (VString (data_weather data)) w2 ;;
    _ensureWeatherTextOnTop w3
  else Returns w.

(** The [onChange] of the [currentWeather] setting. *)
Definition onChange_currentWeather (weather : string) (w : World) : Outcome World :=
  let w1 := on_hud (set_currentWeather weather) w in
  w2 <- updateWeatherDisplay (VString weather) w1 ;;
  w3 <- _ensureWeatherTextOnTop w2 ;;
  Returns (console_log "Weather setting changed to:" w3).

(** The [updateWorldTime] hook. *)
Definition on_updateWorldTime (w : World) : Outcome World :=
  w1 <- updateCalendarDisplay (updateTimeDisplay w) ;;
  Returns (_updateDialRotation w1).

(** ** Setters *)

(** The test [typeof alpha === 'number' && alpha >= 0 && alpha <= 1]. *)
Definition valid_opacity (alpha : JsValue) : option number :=
  match alpha with
  | VNumber a => if (a >=? lit 0) && (a <=? lit 1) then Some a else None
  | _ => None
  end.

Definition setTopBarOpacity (alpha : JsValue) (w : World) : Outcome World :=
  match valid_opacity alpha with
  | Some a => Returns (_drawTimeBar (on_hud (set_topBarOpacity a) w))
  | None => Returns w
  end.

Definition setDialImageOpacity (alpha : JsValue) (w : World) : Outcome World :=
  match valid_opacity alpha with
  | Some a =>
      Returns (console_log "Dial image opacity set to:"
                 (on_hud (fun h => update _dialGradientSprite (with_alpha a)
                                     (set_dialImageOpacity a h)) w))
  | None => Returns (console_warn "Invalid Dial Image Opacity value" w)
  end.

Definition setDialMarkerOpacity (alpha : JsValue) (w : World) : Outcome World :=
  match valid_opacity alpha with
  | Some a =>
      let w1 := on_hud (set_dialMarkerOpacity a) w in
      Returns (match slot _dialMarker w1 with
               | Some _ => _drawDialMarker w1
               | None => w1
               end)
  | None => Returns (console_warn "Invalid Dial Marker Opacity value" w)
  end.

Definition textElements : list Slot :=
  [_timeText; _calendarText; _timeCalendarSeparator; _weatherText;
   _rewindHourButton; _rewindDayButton; _advanceHourButton; _advanceDayButton].

Definition setGlobalFontOpacity (alpha : JsValue) (w : World) : Outcome World :=
  match valid_opacity alpha with
  | Some a =>
      Returns (on_hud (fun h =>
                 fold_left (fun h' el => update el (with_alpha a) h')
                   textElements (set_globalFontOpacity a h)) w)
  | None => Returns (console_warn "Invalid Global Font Opacity value" w)
  end.

Definition setToggleSecondsDisplay (display : JsValue) (w : World) : Outcome World :=
  Returns (updateTimeDisplay (on_hud (set_displaySeconds (truthy display)) w)).

Definition setToggleCalendarDisplay (visible : JsValue) (w : World) : Outcome World :=
  Returns (on_hud (fun h =>
             update _timeCalendarSeparator (with_visible (truthy visible))
               (update _calendarText (with_visible (truthy visible)) h)) w).

Definition setToggleWeatherDisplay (visible : JsValue) (w : World) : Outcome World :=
  Returns (on_hud (update _weatherText (with_visible (truthy visible))) w).

Definition setToggleDialMarker (visible : JsValue) (w : World) : Outcome World :=
  Returns (on_hud (update _dialMarker (with_visible (truthy visible))) w).

Definition setCustomDialImageAngleOffset (angle : JsValue) (w : World) : Outcome World :=
  match angle with
  | VNumber a =>
      if (a >=? lit 0) && (a <=? lit 360) then
        Returns (_updateDialRotation
                   (console_log "Custom dial image angle offset set to:" w))
      else Returns (console_warn "Invalid custom dial image angle offset" w)
  | _ => Returns (console_warn "Invalid custom dial image angle offset" w)
  end.

(** The updates that follow a full redraw in [setGlobalFontFamily] and
    [setGlobalUiSize]. *)
Definition refresh_content (w : World) : Outcome World :=
  w1 <- updateCalendarDisplay (updateTimeDisplay w) ;;
  w2 <- updateWeatherDisplay VUndefined w1 ;;
  Returns (_updateDialRotation w2).

Definition setGlobalFontFamily (fontFamily : JsValue) (w : World) : Outcome World :=
  match fontFamily with
  | VString f =>
      if negb (String.eqb (trim f) "") then
        w1 <- _redrawAllElements (on_hud (set_globalFontFamily f) w) ;;
        w2 <- refresh_content w1 ;;
        Returns (console_log "Global font set to:" w2)
      else if String.eqb f "" then
        Returns (console_log "Empty font family provided, using default: Signika"
                   (on_hud (set_globalFontFamily "Signika") w))
      else Returns (console_warn "Invalid font family" w)
  | _ => Returns (console_warn "Invalid font family" w)
  end.

(** The test [typeof scale === 'number' && scale > 0]. *)
Definition valid_scale (scale : JsValue) : option number :=
  match scale with
  | VNumber s => if s >? lit 0 then Some s else None
  | _ => None
  end.

Definition setGlobalUiSize (scale : JsValue) (w : World) : Outcome World :=
  match valid_scale scale with
  | Some s =>
      let w1 := console_log "Setting Global UI Size to:" w in
      let w2 := _calculateScaledDimensions (on_hud (set_globalUiScale s) w1) in
      let w3 :=
        match _pixiApp (hud w2) with
        | Some _ =>
            on_hud (fun h => set_pixiApp
                      (Some (HUD_WIDTH (dims h), TOTAL_HUD_HEIGHT (dims h))) h) w2
        | None =>
            _initPIXIApp (console_warn "PIXI App not initialized before scaling." w2)
        end in
      w4 <- _redrawAllElements w3 ;;
      refresh_content w4
  | None => Returns (console_warn "Invalid Global UI Size value" w)
  end.

(** ** Construction *)

Definition zero_dimensions : Dimensions :=
  {| HUD_WIDTH := lit 0; primaryFontSize := lit 0; calendarFontSize := lit 0;
     iconFontSize := lit 0; TIME_BAR_TEXT_TOP_PADDING := lit 0;
     TIME_BAR_TEXT_BOTTOM_PADDING := lit 0; TIME_BAR_HEIGHT := lit 0;
     MAIN_HUD_AREA_HEIGHT := lit 0; TOTAL_HUD_HEIGHT := lit 0;
     CORNER_RADIUS := lit 0; PADDING := lit 0; BUTTON_PADDING := lit 0;
     DIAL_CENTER_X := lit 0; MAIN_HUD_AREA_Y_OFFSET := lit 0;
     DIAL_RADIUS := lit 0; DIAL_ARC_CENTER_Y := lit 0; MARKER_SIZE := lit 0;
     weatherTextPaddingTop := lit 0 |}.

(** The fields as the constructor initialises them, before its calls. *)
Definition initial_fields : SolunaDial :=
  {| dims := zero_dimensions;
     _globalUiScale := lit 1;
     _currentWeather := "CLEAR";
     _topBarOpacity := lit_frac 7 10;
     _dialImageOpacity := lit 1;
     _dialMarkerOpacity := lit 1;
     _globalFontOpacity := lit 1;
     _globalFontFamily := DEFAULT_FONT_FAMILY;
     _displaySeconds := false;
     _pixiApp := None;
     _mainContainer := None;
     nodes := fun _ => None;
     next_id := O |}.

(** The test of the constructor before it registers a listener on the
    hook [SimpleCalendar.DateTimeChange]:
    [...?.active && typeof SimpleCalendar !== 'undefined' && SimpleCalendar.api].
    [typeof] of an identifier that is not declared is ['undefined'], and
    throws nothing. *)
Definition listens_to_DateTimeChange (g : Game) : Outcome bool :=
  match simpleCalendar g with
  | ScNotActive => Returns false
  | ScUndeclared => Returns false
  | ScNoApi => Returns false
  | ScApi _ => Returns true
  end.

(** [new SolunaDial()], on a host [g].  The hooks and the socket listener
    it registers are [on_updateWorldTime] and [on_socket]; the listener on
    [SimpleCalendar.DateTimeChange] is not modelled. *)
Definition constructor (g : Game) : Outcome World :=
  let w0 :=
    {| game := g; hud := initial_fields;
       console := [{| level := LevelLog; message := "Initializing Soluna Dial" |}];
       emitted := []; notifications := []; timeouts := [] |} in
  let w1 := _initPIXIApp (_calculateScaledDimensions w0) in
  w2 <- _redrawAllElements w1 ;;
  w3 <- updateCalendarDisplay (updateTimeDisplay w2) ;;
  let w4 := _updateDialRotation w3 in
  w5 <- (if game_ready g then _loadWeatherFromFlag w4 else Returns w4) ;;
  Returns (setTimeout EnsureWeatherTextOnTop 100 w5).

(** Running a callback given to [setTimeout]. *)
Definition run_callback (cb : Callback) (w : World) : Outcome World :=
  match cb with
  | EnsureWeatherTextOnTop => _ensureWeatherTextOnTop w
  | LoadWeatherFromFlag => _loadWeatherFromFlag w
  end.

(** ** The host's calls *)

(** The host's [game.time.advance(delta)] adds [delta] to the world time and
    then calls the [updateWorldTime] hook; this is what a click on the
    "Rewind 1 Hour" button, made by [_drawTimeAdvanceControls], asks for. *)
Definition set_worldTime (worldTime : number) (g : Game) : Game :=
  {| user_isGM := user_isGM g; user_id := user_id g; game_ready := game_ready g;
     time_worldTime := worldTime;
     settings_customDialImage := settings_customDialImage g;
     settings_customDialImageAngleOffset := settings_customDialImageAngleOffset g;
     settings_currentWeather := settings_currentWeather g;
     settings_set_rejects := settings_set_rejects g;
     simpleCalendar := simpleCalendar g;
     Texture_from := Texture_from g |}.

Definition game_time_advance (delta : number) (w : World) : Outcome World :=
  on_updateWorldTime
    (set_game (set_worldTime (time_worldTime (game w) + delta) (game w)) w).

Definition click_rewindHourButton : World -> Outcome World :=
  game_time_advance (lit (-3600)).

(** The calls on a running instance that are modelled: setters (called by
    the settings registry), the world-time hook, the socket listener, the
    dialog's update button and the deferred callbacks. *)
Inductive Call : Type :=
| Call_setTopBarOpacity (alpha : JsValue)
| Call_setDialImageOpacity (alpha : JsValue)
| Call_setDialMarkerOpacity (alpha : JsValue)
| Call_setGlobalFontOpacity (alpha : JsValue)
| Call_setToggleSecondsDisplay (display : JsValue)
| Call_setToggleCalendarDisplay (visible : JsValue)
| Call_setToggleWeatherDisplay (visible : JsValue)
| Call_setToggleDialMarker (visible : JsValue)
| Call_setCustomDialImageAngleOffset (angle : JsValue)
| Call_setGlobalFontFamily (fontFamily : JsValue)
| Call_setGlobalUiSize (scale : JsValue)
| Call_time_advance (delta : number)
| Call_socket (data : SocketData)
| Call_onChange_currentWeather (weather : string)
| Call_dialog_update (d : WeatherDialog) (custom selectValue : string)
| Call_timeout (cb : Callback).

Definition run (c : Call) (w : World) : Outcome World :=
  match c with
  | Call_setTopBarOpacity alpha => setTopBarOpacity alpha w
  | Call_setDialImageOpacity alpha => setDialImageOpacity alpha w
  | Call_setDialMarkerOpacity alpha => setDialMarkerOpacity alpha w
  | Call_setGlobalFontOpacity alpha => setGlobalFontOpacity alpha w
  | Call_setToggleSecondsDisplay display => setToggleSecondsDisplay display w
  | Call_setToggleCalendarDisplay visible => setToggleCalendarDisplay visible w
  | Call_setToggleWeatherDisplay visible => setToggleWeatherDisplay visible w
  | Call_setToggleDialMarker visible => setToggleDialMarker visible w
  | Call_setCustomDialImageAngleOffset angle => setCustomDialImageAngleOffset angle w
  | Call_setGlobalFontFamily fontFamily => setGlobalFontFamily fontFamily w
  | Call_setGlobalUiSize scale => setGlobalUiSize scale w
  | Call_time_advance delta => game_time_advance delta w
  | Call_socket data => on_socket data w
  | Call_onChange_currentWeather weather => onChange_currentWeather weather w
  | Call_dialog_update d custom selectValue =>
      dialog_update_callback d custom selectValue w
  | Call_timeout cb => run_callback cb w
  end.

(** ** A host and a running instance, for concrete runs *)

Definition host (isGM : bool) (worldTime angleOffset : number)
    (calendar : SimpleCalendarModule) (texture : TextureOutcome) : Game :=
  {| user_isGM := isGM; user_id := "user-1"; game_ready := true;
     time_worldTime := worldTime;
     settings_customDialImage := "";
     settings_customDialImageAngleOffset := angleOffset;
     settings_currentWeather := "CLEAR";
     settings_set_rejects := false;
     simpleCalendar := calendar;
     Texture_from := fun _ => texture |}.

Definition blank_world (g : Game) : World :=
  {| game := g; hud := initial_fields; console := []; emitted := [];
     notifications := []; timeouts := [] |}.

(** The instance that [new SolunaDial()] leaves on host [g]. *)
Definition started (g : Game) : World :=
  match constructor g with
  | Returns w => w
  | Throws _ => blank_world g
  end.

Definition gm_world : World :=
  started (host true (lit 3661) (lit 90) ScNotActive TextureLoaded).

(** The instance of a GM at world time 0, the stored angle offset being 0. *)
Definition zero_offset_world : World :=
  started (host true (lit 0) (lit 0) ScNotActive TextureLoaded).

Definition throwing_calendar_world : World :=
  started (host true (lit 3661) (lit 90) (ScApi ApiThrows) TextureLoaded).

(** * Predicates of the specification *)

(** The three readability floors. *)
Definition floors_hold (d : Dimensions) : bool :=
  (lit 8 <=? primaryFontSize d) && (lit 10 <=? iconFontSize d)
  && (lit 5 <=? MARKER_SIZE d).

(** The derived hour is in [0,24), minute and second in [0,60). *)
Definition clock_in_range (worldTime : number) : bool :=
  let h := hours_of worldTime in
  let m := minutes_of worldTime in
  let s := seconds_of worldTime in
  (lit 0 <=? h) && (h <? lit 24) && (lit 0 <=? m) && (m <? lit 60)
  && (lit 0 <=? s) && (s <? lit 60).

(** Two decimal digits, the zero-padded form [HH], [MM], [SS] of the
    display string. *)
Definition digit (d : Z) : ascii := ascii_of_nat (48 + Z.to_nat d).

Definition two_digits (n : Z) : string :=
  String (digit (n / 10)) (String (digit (n mod 10)) EmptyString).

Definition HH_MM (h m : Z) : string :=
  (two_digits h ++ ":" ++ two_digits m)%string.

Definition HH_MM_SS (h m s : Z) : string :=
  (two_digits h ++ ":" ++ two_digits m ++ ":" ++ two_digits s)%string.

Definition pad2_agrees (k : nat) : bool :=
  String.eqb (padStart 2 "0" (Z_toString (Z.of_nat k))) (two_digits (Z.of_nat k)).

Definition degreesToRadians (degrees : number) : number :=
  (degrees * Math_PI) / lit 180.

(** The rotation of the data model: (hour/24)*2*pi plus the offset in
    radians, the hour being the (fractional) hour of the day that
    [_updateDialRotation] derives from the world time. *)
Definition rotation_formula (worldTime angleOffset : number) : number :=
  let hour := (worldTime / lit 3600) %% lit 24 in
  (hour / lit 24) * (lit 2 * Math_PI) + degreesToRadians angleOffset.

(** The fields that no drawing method writes. *)
Definition style_of (h : SolunaDial) :=
  (dims h, _globalUiScale h, _globalFontFamily h, _displaySeconds h, _pixiApp h,
   (_topBarOpacity h, _dialImageOpacity h, _dialMarkerOpacity h,
    _globalFontOpacity h)).

Definition kids (w : World) : option (list nat) := _mainContainer (hud w).

(** [h'] comes from [h] by drawing: the style and the weather label are
    the same, the interactive area is the same object, the main container
    is still there (or still missing) and no identity is reused. *)
Record hud_drawn (h h' : SolunaDial) : Prop := {
  drawn_style : style_of h' = style_of h;
  drawn_weather : _currentWeather h' = _currentWeather h;
  drawn_area : nodes h' _dialInteractiveArea = nodes h _dialInteractiveArea;
  drawn_next_id : (next_id h <= next_id h')%nat;
  drawn_container : _mainContainer h' = None <-> _mainContainer h = None
}.

Definition drawn (w w' : World) : Prop :=
  game w' = game w /\ hud_drawn (hud w) (hud w').

Definition last_child (children : list nat) : option nat :=
  match rev children with
  | x :: _ => Some x
  | [] => None
  end.

Definition has_container (w : World) : bool :=
  match kids w with Some _ => true | None => false end.

(** The weather text, when there is one, is a child of the main container. *)
Definition weather_attached (w : World) : bool :=
  match slot _weatherText w with
  | None => true
  | Some t =>
      match kids w with
      | Some c => existsb (Nat.eqb (node_id t)) c
      | None => false
      end
  end.

(** The weather text, when there is one, is the last child of the main
    container: the topmost in rendering order. *)
Definition weather_on_top (w : World) : bool :=
  match slot _weatherText w with
  | None => true
  | Some t =>
      match kids w with
      | Some c =>
          match last_child c with
          | Some x => Nat.eqb x (node_id t)
          | None => false
          end
      | None => false
      end
  end.

(** [w'] is [w] with the weather text moved to the top: only the order of
    the children, the visibility and alpha of the weather text and the
    console differ. *)
Record retopped (w w' : World) : Prop := {
  top_on_top : weather_on_top w' = true;
  top_game : game w' = game w;
  top_style : style_of (hud w') = style_of (hud w);
  top_weather : _currentWeather (hud w') = _currentWeather (hud w);
  top_container : has_container w' = has_container w;
  top_text :
    option_map text (slot _weatherText w') = option_map text (slot _weatherText w);
  top_id :
    option_map node_id (slot _weatherText w')
    = option_map node_id (slot _weatherText w);
  top_slots : forall s, s <> _weatherText -> slot s w' = slot s w;
  top_next_id : next_id (hud w') = next_id (hud w);
  top_emitted : emitted w' = emitted w;
  top_notifications : notifications w' = notifications w
}.

(** Every identity held by the interactive area was already given out. *)
Definition area_known (h : SolunaDial) : Prop :=
  forall a, nodes h _dialInteractiveArea = Some a -> (node_id a < next_id h)%nat.

(** As [hud_drawn], but the interactive area may have been replaced by a new
    object. *)
Record hud_framed (h h' : SolunaDial) : Prop := {
  framed_style : style_of h' = style_of h;
  framed_weather : _currentWeather h' = _currentWeather h;
  framed_area : area_known h -> area_known h';
  framed_container : _mainContainer h' = None <-> _mainContainer h = None
}.

Definition framed (w w' : World) : Prop :=
  game w' = game w /\ hud_framed (hud w) (hud w').

(** [w'] differs from [w] in properties of objects other than the weather
    text (and in the console) only. *)
Record kept (w w' : World) : Prop := {
  kept_game : game w' = game w;
  kept_style : style_of (hud w') = style_of (hud w);
  kept_weather : _currentWeather (hud w') = _currentWeather (hud w);
  kept_kids : kids w' = kids w;
  kept_text : slot _weatherText w' = slot _weatherText w
}.

(** The main container exists and holds the weather text, when there is
    one: the state of the scene between two calls on a constructed
    instance. *)
Definition scene_ready (w : World) : bool :=
  has_container w && weather_attached w.




Definition calendar_text (w : World) : option string :=
  option_map text (slot _calendarText w).

(** The calendar returned an object with no date to show: no [date], and
    not all of [day], [monthName] and [year]. *)
Definition no_usable_date (c : DateTimeDisplay) : bool :=
  negb (str_truthy (date c))
  && negb (str_truthy (day c) && str_truthy (monthName c) && str_truthy (year c)).

(** Equality of two labels up to case, as the dialog uses it to mark the
    quick-select option that is the current weather. *)
Definition same_ignoring_case (a b : string) : bool :=
  String.eqb (toLowerCase a) (toLowerCase b).

Definition clear_dialog : WeatherDialog :=
  {| dialog_currentWeather := "CLEAR";
     dialog_options :=
       map (fun o => (o, same_ignoring_case o "CLEAR")) weatherOptions;
     dialog_custom := "CLEAR" |}.

Definition label_rendered (w : World) : bool :=
  match slot _weatherText w with
  | Some t => String.eqb (text t) (toUpperCase (_currentWeather (hud w)))
  | None => true
  end.

(** The host does not report the calendar module active while no global
    [SimpleCalendar] is declared. *)
Definition SimpleCalendar_declared (g : Game) : bool :=
  match simpleCalendar g with
  | ScUndeclared => false
  | _ => true
  end.

(** Between two calls on an instance that [new SolunaDial()] has returned:
    the main container exists and holds the weather text, the weather text
    shows the stored label in upper case, the font and marker sizes are at
    or above their floors, and the host is one on which the constructor
    returns (the global [SimpleCalendar] is declared if the calendar
    module is active). *)
Definition instance_ok (w : World) : bool :=
  scene_ready w && label_rendered w && floors_hold (dims (hud w))
  && SimpleCalendar_declared (game w).

(** [w'] has the same weather text object with the same text, the same
    stored label and dimensions, a main container that lost no child, and
    the same calendar module. *)
Record weather_kept (w w' : World) : Prop := {
  wk_calendar : simpleCalendar (game w') = simpleCalendar (game w);
  wk_dims : dims (hud w') = dims (hud w);
  wk_id : option_map node_id (slot _weatherText w')
          = option_map node_id (slot _weatherText w);
  wk_text : option_map text (slot _weatherText w')
            = option_map text (slot _weatherText w);
  wk_label : _currentWeather (hud w') = _currentWeather (hud w);
  wk_kids : forall c, kids w = Some c -> exists c', kids w' = Some c' /\ incl c c'
}.

(** A write of a property other than the identity and the text. *)
Definition keeps_id_and_text (f : Node -> Node) : Prop :=
  forall n, node_id (f n) = node_id n /\ text (f n) = text n.

(** [w'] comes from [w] by drawing or by refreshing texts: the console has
    only grown, nothing was deferred, sent or notified, and no identity
    has been given back. *)
Record extends (w w' : World) : Prop := {
  ext_console : exists l, console w' = (console w ++ l)%list;
  ext_timeouts : timeouts w' = timeouts w;
  ext_emitted : emitted w' = emitted w;
  ext_notifications : notifications w' = notifications w;
  ext_next_id : (next_id (hud w) <= next_id (hud w'))%nat
}.

(** The fields [S] hold in [w'] what they hold in [w]. *)
Definition slots_kept (S : list Slot) (w w' : World) : Prop :=
  forall s, In s S -> slot s w' = slot s w.

(** Every field holds in [w'] the object it holds in [w], or none as in
    [w]. *)
Definition ids_kept (w w' : World) : Prop :=
  forall s, option_map node_id (slot s w') = option_map node_id (slot s w).

(** Field [s] holds in [w'] an object made after [w]. *)
Definition fresh_in (s : Slot) (w w' : World) : Prop :=
  exists n, slot s w' = Some n /\ (next_id (hud w) <= node_id n)%nat.

(** The two texts of the time and calendar group that a refresh fills. *)
Definition texts : list Slot := [_timeText; _calendarText].






(** * Properties *)

(** ** Checks of the primitives *)

Example toString_examples :
  Number_toString (lit 0) = "0" /\ Number_toString (lit 7) = "7" /\
  Number_toString (lit (-1)) = "-1" /\ Number_toString (lit 23) = "23" /\
  padStart 2 "0" "7" = "07" /\ padStart 2 "0" "-1" = "-1" /\
  padStart 5 "ab" "x" = "ababx" /\ toUpperCase "rainy" = "RAINY" /\
  trim "  a b  " = "a b" /\ replace_trailing_comma "1 May," = "1 May" /\
  replace_trailing_comma "1 May, 2020" = "1 May, 2020".
Proof. repeat split; reflexivity. Qed.

Example scale_1_scenario :
  let d := scaled_dimensions (lit 1) in
  HUD_WIDTH d =n= lit 400 /\ TIME_BAR_HEIGHT d =n= lit 32 /\
  MAIN_HUD_AREA_HEIGHT d =n= lit 150 /\ TOTAL_HUD_HEIGHT d =n= lit 182 /\
  DIAL_RADIUS d =n= lit 112.
Proof. vm_compute. repeat split. Qed.

(** ** Arithmetic of [number] *)

Section NumberFacts.

Local Open Scope Q_scope.

Lemma num_eq_refl (a : number) : a =n= a.
Proof. destruct a; simpl; auto with qarith. Qed.

Lemma num_eq_sym (a b : number) : a =n= b -> b =n= a.
Proof. destruct a, b; simpl; auto with qarith. Qed.

Lemma num_eq_trans (a b c : number) : a =n= b -> b =n= c -> a =n= c.
Proof.
  destruct a, b, c; simpl; try tauto; try congruence.
  intros H1 H2; now rewrite H1.
Qed.

Lemma Qis_zero_false (q : Q) : ~ q == 0 -> Qis_zero q = false.
Proof.
  intros H. unfold Qis_zero. destruct (Qeq_bool q 0) eqn:E; auto.
  apply Qeq_bool_iff in E. contradiction.
Qed.

Lemma Qtrunc_nonneg (q : Q) : 0 <= q -> Qtrunc q = Qfloor q.
Proof.
  destruct q as [n d]. unfold Qtrunc, Qfloor, Qle. simpl. intros H.
  apply Z.quot_div_nonneg; lia.
Qed.

Lemma Qdiv_nonneg (x y : Q) : 0 <= x -> 0 < y -> 0 <= x / y.
Proof.
  intros Hx Hy. apply Qle_shift_div_l; auto. now rewrite Qmult_0_l.
Qed.

(** The remainder of a non-negative dividend lies in [0, y). *)
Lemma Qrem_bounds (x y : Q) :
  0 <= x -> 0 < y ->
  0 <= x - y * inject_Z (Qtrunc (x / y)) /\
  x - y * inject_Z (Qtrunc (x / y)) < y.
Proof.
  intros Hx Hy.
  rewrite Qtrunc_nonneg by (apply Qdiv_nonneg; auto).
  pose proof (Qfloor_le (x / y)) as Hlo.
  pose proof (Qlt_floor (x / y)) as Hhi.
  set (t := Qfloor (x / y)) in *.
  assert (Hy0 : ~ y == 0) by (intro E; rewrite E in Hy; discriminate).
  assert (E : y * (x / y) == x) by (apply Qmult_div_r; auto).
  assert (L : y * inject_Z t <= y * (x / y)) by (apply Qmult_le_l; auto).
  assert (U : y * (x / y) < y * inject_Z (t + 1)) by (apply Qmult_lt_l; auto).
  rewrite E in L, U. rewrite inject_Z_plus in U. split.
  - apply (Qplus_le_l _ _ (y * inject_Z t)). ring_simplify. exact L.
  - apply (Qplus_lt_l _ _ (y * inject_Z t)). ring_simplify.
    setoid_replace (y * inject_Z t + y) with (y * (inject_Z t + inject_Z 1))
      by ring.
    exact U.
Qed.

Lemma Qfloor_bounds (x : Q) (n : Z) :
  0 <= x -> x < inject_Z n -> (0 <= Qfloor x < n)%Z.
Proof.
  intros Hlo Hhi. split.
  - change 0%Z with (Qfloor 0). now apply Qfloor_resp_le.
  - pose proof (Qfloor_le x) as H.
    assert (inject_Z (Qfloor x) < inject_Z n) by (eapply Qle_lt_trans; eauto).
    now rewrite <- Zlt_Qlt in H0.
Qed.

End NumberFacts.

Section ComparisonFacts.

Local Open Scope Q_scope.

Lemma num_leb_Fin (x y : Q) : x <= y -> (Fin x <=? Fin y)%js = true.
Proof. intros H. simpl. now apply Qle_bool_iff. Qed.

Lemma num_ltb_Fin (x y : Q) : x < y -> (Fin x <? Fin y)%js = true.
Proof.
  intros H. simpl. destruct (Qle_bool y x) eqn:E; auto.
  apply Qle_bool_iff in E. exfalso. now apply (Qlt_not_le x y).
Qed.

Lemma num_div_Fin (x y : Q) : ~ y == 0 -> (Fin x / Fin y)%js = Fin (x / y).
Proof. intros H. simpl. now rewrite Qis_zero_false. Qed.

Lemma num_rem_Fin (x y : Q) :
  ~ y == 0 -> (Fin x %% Fin y)%js = Fin (x - y * inject_Z (Qtrunc (x / y))).
Proof. intros H. simpl. now rewrite Qis_zero_false. Qed.

(** [Math.max(c, k)] is at least [c], for finite arguments. *)
Lemma Math_max_floor (c k : Q) : (Fin c <=? Math_max (Fin c) (Fin k))%js = true.
Proof.
  unfold Math_max. destruct (Fin c <? Fin k)%js eqn:E.
  - apply num_leb_Fin. simpl in E.
    destruct (Qle_bool k c) eqn:E'; try discriminate.
    apply Qnot_lt_le. intros H. apply Qlt_le_weak in H.
    apply Qle_bool_iff in H. congruence.
  - apply num_leb_Fin. apply Qle_refl.
Qed.

Lemma Math_max_floor_Infinity (c : Q) :
  (Fin c <=? Math_max (Fin c) (Infinity true))%js = true.
Proof. reflexivity. Qed.

End ComparisonFacts.

(** ** Scaled dimensions *)

(** A rounded rational is a rational or an infinity. *)
Lemma round64_cases (q : Q) :
  (exists r, round64 q = Fin r) \/ (exists p, round64 q = Infinity p).
Proof.
  unfold round64. destruct (Qis_zero q); [left; eauto|].
  cbv zeta. destruct (Qle_bool _ _); [right | left]; eauto.
Qed.

(** [Math.max(c, Math.round(b * scale))] is at least [c], at every rational
    scale. *)
Lemma scaled_floor (c b uiScale : Q) :
  (Fin c <=? Math_max (Fin c) (Math_round (mul64 (Fin b) (Fin uiScale))))%js = true.
Proof.
  unfold mul64. cbn [num_mul to_double].
  destruct (round64_cases (b * uiScale)) as [(r & ->)|([|] & ->)].
  - cbn [Math_round]. unfold of_Z. apply Math_max_floor.
  - reflexivity.
  - cbn [Math_round Math_max num_ltb]. cbn [negb]. apply num_leb_Fin, Qle_refl.
Qed.

Lemma scaled_dimensions_floors (uiScale : Q) :
  floors_hold (scaled_dimensions (Fin uiScale)) = true.
Proof.
  unfold floors_hold, scaled_dimensions; cbn [primaryFontSize iconFontSize MARKER_SIZE].
  unfold BASE_PRIMARY_FONT_SIZE, BASE_ICON_FONT_SIZE, BASE_MARKER_SIZE, lit, of_Z.
  now rewrite !scaled_floor.
Qed.

(** The floors also hold at the one non-finite scale the setter can store. *)
Lemma scaled_dimensions_floors_Infinity :
  floors_hold (scaled_dimensions (Infinity true)) = true.
Proof. vm_compute. reflexivity. Qed.

(** C7. For every (real) uiScale, once [_calculateScaledDimensions] has
    recomputed the dimensions from it, the primary font size is at least 8,
    the icon font size at least 10 and the marker size at least 5; the
    scale may be arbitrarily close to zero, zero or negative. *)
Theorem C7_floors_after_recompute (w : World) (uiScale : Q) :
  floors_hold
    (dims (hud (_calculateScaledDimensions
                  (on_hud (set_globalUiScale (Fin uiScale)) w)))) = true.
Proof.
  unfold _calculateScaledDimensions. cbn.
  apply scaled_dimensions_floors.
Qed.

Example floors_near_zero :
  let d := scaled_dimensions (lit_frac 1 1000000) in
  primaryFontSize d =n= lit 8 /\ iconFontSize d =n= lit 10 /\
  MARKER_SIZE d =n= lit 5.
Proof. vm_compute. repeat split. Qed.

(** ** The clock *)

Section Clock.

Local Open Scope Q_scope.

Lemma inject_Z_nonzero (z : Z) : z <> 0%Z -> ~ inject_Z z == 0.
Proof. intros H E. apply H. unfold Qeq in E. simpl in E. lia. Qed.

Lemma rem_in_range (x : Q) (n : Z) :
  0 <= x -> (0 < n)%Z ->
  exists r, (Fin x %% lit n)%js = Fin r /\ 0 <= r /\ r < inject_Z n.
Proof.
  intros Hx Hn. unfold lit, of_Z.
  rewrite num_rem_Fin by (apply inject_Z_nonzero; lia).
  eexists; split; [reflexivity|].
  apply Qrem_bounds; auto. change 0 with (inject_Z 0). rewrite <- Zlt_Qlt. lia.
Qed.

Lemma hours_in_range (q : Q) :
  0 <= q -> exists r, hours_of (Fin q) = Fin r /\ 0 <= r /\ r < 24.
Proof.
  intros Hq. unfold hours_of, lit, of_Z.
  rewrite num_div_Fin by (apply inject_Z_nonzero; lia).
  cbn [Math_floor]. unfold of_Z.
  apply (rem_in_range _ 24); [|lia].
  change 0 with (inject_Z 0). rewrite <- Zle_Qle.
  change 0%Z with (Qfloor 0). apply Qfloor_resp_le.
  apply Qdiv_nonneg; auto. reflexivity.
Qed.

Lemma minutes_in_range (q : Q) :
  0 <= q -> exists k, minutes_of (Fin q) = of_Z k /\ (0 <= k < 60)%Z.
Proof.
  intros Hq. unfold minutes_of.
  destruct (rem_in_range q 3600 Hq ltac:(lia)) as (r & -> & Hlo & Hhi).
  unfold lit, of_Z. rewrite num_div_Fin by (apply inject_Z_nonzero; lia).
  cbn [Math_floor]. eexists; split; [reflexivity|].
  apply Qfloor_bounds.
  - apply Qdiv_nonneg; auto. reflexivity.
  - apply Qlt_shift_div_r; [reflexivity|]. exact Hhi.
Qed.

Lemma seconds_in_range (q : Q) :
  0 <= q -> exists k, seconds_of (Fin q) = of_Z k /\ (0 <= k < 60)%Z.
Proof.
  intros Hq. unfold seconds_of.
  destruct (rem_in_range q 60 Hq ltac:(lia)) as (r & -> & Hlo & Hhi).
  cbn [Math_floor]. eexists; split; [reflexivity|].
  now apply Qfloor_bounds.
Qed.

Lemma clock_in_range_nonneg (q : Q) : 0 <= q -> clock_in_range (Fin q) = true.
Proof.
  intros Hq. unfold clock_in_range.
  destruct (hours_in_range q Hq) as (h & -> & Hh0 & Hh1).
  destruct (minutes_in_range q Hq) as (m & -> & Hm).
  destruct (seconds_in_range q Hq) as (s & -> & Hs).
  unfold lit, of_Z.
  rewrite !num_leb_Fin, !num_ltb_Fin; auto;
    try (rewrite <- Zlt_Qlt; lia); try (rewrite <- Zle_Qle; lia).
Qed.

End Clock.

(** ** Integer world times and their rendering *)

Section IntegerClock.

Local Open Scope Q_scope.

Lemma Math_floor_proper (a b : number) : a =n= b -> Math_floor a = Math_floor b.
Proof.
  destruct a, b; simpl; try tauto; try congruence.
  intros H. now rewrite (Qfloor_comp _ _ H).
Qed.

Lemma num_div_proper_l (a a' : number) (y : Q) :
  ~ y == 0 -> a =n= a' -> (a / Fin y)%js =n= (a' / Fin y)%js.
Proof.
  intros Hy. destruct a, a'; simpl; try tauto; try congruence.
  - rewrite Qis_zero_false by auto. simpl. intros H. now rewrite H.
  - now intros ->.
Qed.

Lemma Qtrunc_inject_Z (a b : Z) :
  (0 < b)%Z -> Qtrunc (inject_Z a / inject_Z b) = Z.quot a b.
Proof.
  intros Hb. destruct b as [|p|p]; try lia.
  unfold Qtrunc, Qdiv, Qinv, Qmult, inject_Z. simpl.
  now rewrite Z.mul_1_r.
Qed.

Lemma num_rem_of_Z (a b : Z) :
  (0 < b)%Z -> (of_Z a %% of_Z b)%js =n= of_Z (Z.rem a b).
Proof.
  intros Hb. unfold of_Z. rewrite num_rem_Fin by (apply inject_Z_nonzero; lia).
  rewrite Qtrunc_inject_Z by auto. simpl.
  rewrite (Z.rem_eq a b) by lia.
  unfold Zminus. rewrite inject_Z_plus, inject_Z_opp, inject_Z_mult. ring.
Qed.

Lemma Math_floor_div_of_Z (a b : Z) :
  b <> 0%Z -> Math_floor (of_Z a / of_Z b)%js = of_Z (a / b).
Proof.
  intros Hb. unfold of_Z. rewrite num_div_Fin by (now apply inject_Z_nonzero).
  cbn [Math_floor]. now rewrite <- Zdiv_Qdiv.
Qed.

Lemma Math_floor_of_Z (a : Z) : Math_floor (of_Z a) = of_Z a.
Proof. unfold of_Z. cbn [Math_floor]. now rewrite Qfloor_Z. Qed.

Lemma hours_of_Z (n : Z) : hours_of (lit n) =n= of_Z (Z.rem (n / 3600) 24).
Proof.
  unfold hours_of, lit. rewrite Math_floor_div_of_Z by lia.
  apply num_rem_of_Z. lia.
Qed.

Lemma minutes_of_Z (n : Z) : minutes_of (lit n) = of_Z (Z.rem n 3600 / 60).
Proof.
  unfold minutes_of, lit.
  rewrite (Math_floor_proper _ (of_Z (Z.rem n 3600) / of_Z 60)%js).
  - apply Math_floor_div_of_Z. lia.
  - apply num_div_proper_l.
    + apply inject_Z_nonzero. lia.
    + apply num_rem_of_Z. lia.
Qed.

Lemma seconds_of_Z (n : Z) : seconds_of (lit n) = of_Z (Z.rem n 60).
Proof.
  unfold seconds_of, lit.
  rewrite (Math_floor_proper _ _ (num_rem_of_Z n 60 ltac:(lia))).
  apply Math_floor_of_Z.
Qed.

Lemma Qred_inject_Z (z : Z) : Qred (inject_Z z) = inject_Z z.
Proof.
  unfold Qred, inject_Z.
  pose proof (Z.ggcd_gcd z 1) as Hg.
  pose proof (Z.ggcd_correct_divisors z 1) as Hd.
  destruct (Z.ggcd z 1) as [g [aa bb]]. simpl in *.
  rewrite Z.gcd_1_r in Hg. subst g. destruct Hd as [Ha Hb].
  rewrite Z.mul_1_l in Ha, Hb. now subst.
Qed.

Lemma Number_toString_proper (a b : number) :
  a =n= b -> Number_toString a = Number_toString b.
Proof.
  destruct a, b; simpl; try tauto; try congruence.
  - intros H. now rewrite (Qred_complete _ _ H).
  - now intros ->.
Qed.

Lemma Number_toString_of_Z (z : Z) : Number_toString (of_Z z) = Z_toString z.
Proof. unfold of_Z, Number_toString. now rewrite Qred_inject_Z. Qed.

End IntegerClock.

Lemma pad2_agrees_below_60 : forallb pad2_agrees (seq 0 60) = true.
Proof. vm_compute. reflexivity. Qed.

Lemma padStart_two_digits (k : Z) :
  (0 <= k < 60)%Z -> padStart 2 "0" (Z_toString k) = two_digits k.
Proof.
  intros Hk.
  pose proof (proj1 (forallb_forall pad2_agrees (seq 0 60)) pad2_agrees_below_60
                (Z.to_nat k)) as H.
  unfold pad2_agrees in H. rewrite Z2Nat.id in H by lia.
  apply String.eqb_eq. apply H. apply in_seq. lia.
Qed.

Lemma timeString_of_hms (h m s : Z) (displaySeconds : bool) :
  (0 <= h < 24)%Z -> (0 <= m < 60)%Z -> (0 <= s < 60)%Z ->
  timeString_of (lit (h * 3600 + m * 60 + s)) displaySeconds
  = if displaySeconds then HH_MM_SS h m s else HH_MM h m.
Proof.
  intros Hh Hm Hs. set (n := (h * 3600 + m * 60 + s)%Z).
  assert (Eh : (n / 3600 = h)%Z) by (unfold n; symmetry; apply (Z.div_unique _ _ _ (m * 60 + s)); lia).
  assert (Er : Z.rem n 3600 = (m * 60 + s)%Z).
  { rewrite Z.rem_mod_nonneg by lia. unfold n.
    symmetry; apply (Z.mod_unique _ _ h); lia. }
  assert (Es : Z.rem n 60 = s).
  { rewrite Z.rem_mod_nonneg by lia. unfold n.
    symmetry; apply (Z.mod_unique _ _ (h * 60 + m)); lia. }
  assert (Em : ((m * 60 + s) / 60 = m)%Z)
    by (symmetry; apply (Z.div_unique _ _ _ s); lia).
  unfold timeString_of.
  rewrite (Number_toString_proper _ _ (hours_of_Z n)), minutes_of_Z, seconds_of_Z.
  rewrite Eh, Er, Es, Em, (Z.rem_small h 24) by lia.
  rewrite !Number_toString_of_Z, !padStart_two_digits by lia.
  destruct displaySeconds; reflexivity.
Qed.

(** ** Reading fields after a write *)

Lemma nodes_assign_same (s : Slot) (v : option Node) (h : SolunaDial) :
  nodes (assign s v h) s = v.
Proof. unfold assign; cbn. now destruct (Slot_eq_dec s s). Qed.

Lemma nodes_assign_other (s s' : Slot) (v : option Node) (h : SolunaDial) :
  s' <> s -> nodes (assign s v h) s' = nodes h s'.
Proof. intros H. unfold assign; cbn. now destruct (Slot_eq_dec s' s). Qed.

Lemma nodes_update_same (s : Slot) (f : Node -> Node) (h : SolunaDial) (n : Node) :
  nodes h s = Some n -> nodes (update s f h) s = Some (f n).
Proof. intros H. unfold update. rewrite H. apply nodes_assign_same. Qed.

Lemma nodes_update_other (s s' : Slot) (f : Node -> Node) (h : SolunaDial) :
  s' <> s -> nodes (update s f h) s' = nodes h s'.
Proof.
  intros H. unfold update. destruct (nodes h s); auto.
  now apply nodes_assign_other.
Qed.

Lemma updateTimeDisplay_text (w : World) (t : Node) :
  slot _timeText w = Some t ->
  slot _timeText (updateTimeDisplay w)
  = Some (with_text (timeString_of (time_worldTime (game w))
                       (_displaySeconds (hud w))) t).
Proof.
  intros H. unfold updateTimeDisplay. rewrite H.
  unfold slot, on_hud. cbn [hud set_hud]. now apply nodes_update_same.
Qed.

(** ** Concrete runs *)

Example constructor_returns :
  constructor (host true (lit 3661) (lit 90) ScNotActive TextureLoaded)
  = Returns gm_world.
Proof. vm_compute. reflexivity. Qed.

(** ** C3: the rendered time *)

(** C3. For h in [0,24) and m, s in [0,60), [updateTimeDisplay] at world
    time h*3600 + m*60 + s writes the zero-padded "HH:MM" into the time
    text when seconds are off and "HH:MM:SS" when they are on; world time
    3661 gives "01:01", and "01:01:01" with seconds. *)
Theorem C3_time_string (w : World) (t : Node) (h m s : Z) :
  slot _timeText w = Some t ->
  (0 <= h < 24)%Z -> (0 <= m < 60)%Z -> (0 <= s < 60)%Z ->
  time_worldTime (game w) = lit (h * 3600 + m * 60 + s) ->
  option_map text (slot _timeText (updateTimeDisplay w))
  = Some (if _displaySeconds (hud w) then HH_MM_SS h m s else HH_MM h m)
  /\ timeString_of (lit 3661) false = "01:01"
  /\ timeString_of (lit 3661) true = "01:01:01".
Proof.
  intros Ht Hh Hm Hs Hw. split; [|split; reflexivity].
  rewrite (updateTimeDisplay_text w t Ht), Hw. cbn [option_map with_text text].
  now rewrite timeString_of_hms.
Qed.

Lemma C3_time_string_witness :
  (exists t, slot _timeText gm_world = Some t)
  /\ option_map text (slot _timeText (updateTimeDisplay gm_world)) = Some "01:01".
Proof.
  split.
  - eexists. vm_compute. reflexivity.
  - refine (proj1 (C3_time_string gm_world _ 1 1 1 _ _ _ _ _));
      [vm_compute; reflexivity | lia | lia | lia | reflexivity].
Defined.

(** ** C4: the range of the derived hour, minute and second *)

(** C4, at a negative world time: the remainder [%] keeps the sign of the
    dividend, so at world time -3600 the derived hour is -1 and the text is
    "-1:00", and at -1 hour, minute and second are all -1.  The claim puts
    them in [0,24) and [0,60) for every world time. *)
Theorem C4_negative_world_time :
  clock_in_range (lit (-3600)) = false
  /\ hours_of (lit (-3600)) =n= lit (-1)
  /\ timeString_of (lit (-3600)) false = "-1:00"
  /\ clock_in_range (lit (-1)) = false
  /\ hours_of (lit (-1)) =n= lit (-1)
  /\ minutes_of (lit (-1)) =n= lit (-1)
  /\ seconds_of (lit (-1)) =n= lit (-1)
  /\ timeString_of (lit (-1)) true = "-1:-1:-1".
Proof. repeat split; reflexivity. Qed.

(** For every finite world time that is not negative the claim holds: the
    derived hour lies in [0,24), the minute and the second in [0,60), and
    [updateTimeDisplay] writes the rendered string into the time text. *)
Lemma clock_in_range_of_world (w : World) (t : Node) (q : Q) :
  time_worldTime (game w) = Fin q -> (0 <= q)%Q ->
  slot _timeText w = Some t ->
  clock_in_range (time_worldTime (game w)) = true
  /\ option_map text (slot _timeText (updateTimeDisplay w))
     = Some (timeString_of (Fin q) (_displaySeconds (hud w))).
Proof.
  intros Hw Hq Ht. rewrite Hw. split.
  - now apply clock_in_range_nonneg.
  - rewrite (updateTimeDisplay_text w t Ht), Hw. reflexivity.
Qed.

(** One click on "Rewind 1 Hour" at world time 0 shows "-1:00". *)
Example rewind_below_zero :
  exists w',
    click_rewindHourButton
      (started (host true (lit 0) (lit 90) ScNotActive TextureLoaded)) = Returns w'
    /\ option_map text (slot _timeText w') = Some "-1:00".
Proof. eexists. split; vm_compute; reflexivity. Qed.

(** ** C1: the rotation of the dial sprite *)

Section Rotation.

Local Open Scope Q_scope.

Lemma num_add_proper_l (a a' b : number) : a =n= a' -> (a + b)%js =n= (a' + b)%js.
Proof.
  destruct a, a', b; simpl; try tauto; try congruence.
  - intros H. now rewrite H.
  - intros ->. destruct (Bool.eqb positive0 positive1); simpl; auto.
Qed.

Lemma two_pi_assoc (x : number) :
  (x * Math_PI * lit 2)%js =n= (x * (lit 2 * Math_PI))%js.
Proof.
  destruct x as [q| |p]; simpl; auto. ring.
Qed.

(** What the code computes: the formula at the offset [stored || 90]. *)
Lemma _updateDialRotation_rotation (w : World) (sprite : Node) :
  slot _dialGradientSprite w = Some sprite ->
  exists sprite',
    slot _dialGradientSprite (_updateDialRotation w) = Some sprite'
    /\ rotation sprite'
       =n= rotation_formula (time_worldTime (game w))
             (num_or (settings_customDialImageAngleOffset (game w)) (lit 90)).
Proof.
  intros H. unfold _updateDialRotation. rewrite H.
  unfold slot, on_hud. cbn [hud set_hud].
  rewrite (nodes_update_same _ _ _ _ H).
  eexists; split; [reflexivity|]. cbn [rotation with_rotation].
  unfold rotation_formula, degreesToRadians.
  apply num_add_proper_l, two_pi_assoc.
Qed.

(** For a stored offset other than 0 (and other than NaN) the rotation is
    the formula at that offset. *)
Lemma _updateDialRotation_nonzero_offset (w : World) (sprite : Node) :
  slot _dialGradientSprite w = Some sprite ->
  num_truthy (settings_customDialImageAngleOffset (game w)) = true ->
  exists sprite',
    slot _dialGradientSprite (_updateDialRotation w) = Some sprite'
    /\ rotation sprite'
       =n= rotation_formula (time_worldTime (game w))
             (settings_customDialImageAngleOffset (game w)).
Proof.
  intros H Ht. destruct (_updateDialRotation_rotation w sprite H) as (s' & E & R).
  exists s'. split; auto. unfold num_or in R. now rewrite Ht in R.
Qed.

End Rotation.

(** C1, at the stored offset 0 (which the setting's range and
    [setCustomDialImageAngleOffset] accept): the offset used is 90, so the
    rotation at world time 0 is pi/2 and not the 0 of the formula. *)
Theorem C1_zero_offset_rotation :
  settings_customDialImageAngleOffset (game zero_offset_world) = lit 0
  /\ time_worldTime (game zero_offset_world) = lit 0
  /\ rotation_formula (lit 0) (lit 0) =n= lit 0
  /\ (exists r,
        option_map rotation
          (slot _dialGradientSprite (_updateDialRotation zero_offset_world)) = Some r
        /\ r =n= degreesToRadians (lit 90)
        /\ ~ r =n= rotation_formula (lit 0) (lit 0))
  /\ (exists w' r,
        setCustomDialImageAngleOffset (VNumber (lit 0)) zero_offset_world = Returns w'
        /\ last (console w') {| level := LevelWarn; message := "" |}
           = {| level := LevelLog;
                message := "Custom dial image angle offset set to:" |}
        /\ option_map rotation (slot _dialGradientSprite w') = Some r
        /\ r =n= degreesToRadians (lit 90)).
Proof.
  split; [reflexivity|]. split; [reflexivity|].
  split; [vm_compute; reflexivity|]. split.
  - eexists. split; [vm_compute; reflexivity|].
    split; [vm_compute; reflexivity | vm_compute; discriminate].
  - eexists. eexists. split; [reflexivity|].
    split; [vm_compute; reflexivity|].
    split; vm_compute; reflexivity.
Qed.

(** ** What the drawing methods leave alone *)

Lemma hud_drawn_refl (h : SolunaDial) : hud_drawn h h.
Proof. split; auto. tauto. Qed.

Lemma hud_drawn_trans (h1 h2 h3 : SolunaDial) :
  hud_drawn h1 h2 -> hud_drawn h2 h3 -> hud_drawn h1 h3.
Proof.
  intros [s1 x1 a1 n1 c1] [s2 x2 a2 n2 c2]. split; try congruence.
  - lia.
  - tauto.
Qed.

Lemma drawn_refl (w : World) : drawn w w.
Proof. split; auto using hud_drawn_refl. Qed.

Lemma drawn_trans (w1 w2 w3 : World) : drawn w1 w2 -> drawn w2 w3 -> drawn w1 w3.
Proof.
  intros [g1 d1] [g2 d2]. split; [congruence|]. eapply hud_drawn_trans; eauto.
Qed.

Lemma on_hud_drawn (f : SolunaDial -> SolunaDial) (w : World) :
  hud_drawn (hud w) (f (hud w)) -> drawn w (on_hud f w).
Proof. intros H. split; auto. Qed.

(** Case analysis on the innermost tests of the goal. *)
Ltac case_matches :=
  repeat match goal with
    | |- context [match ?x with _ => _ end] =>
        lazymatch x with
        | context [match _ with _ => _ end] => fail
        | _ => destruct x eqn:?; cbv beta iota
        end
    end.

Ltac solve_hud_drawn :=
  case_matches; split; cbn; auto; try tauto; try lia;
  try (repeat match goal with
         | H : _mainContainer _ = _ |- _ => rewrite H
         end; cbn; split; intros; congruence);
  try (match goal with
       | |- context [_mainContainer ?h] => destruct (_mainContainer h)
       end; cbn; split; intros; congruence).

Ltac solve_drawn :=
  case_matches; try apply drawn_refl; apply on_hud_drawn; solve_hud_drawn.

Lemma destroy_slot_drawn (s : Slot) (h : SolunaDial) : hud_drawn h (destroy_slot s h).
Proof. unfold destroy_slot, destroy. solve_hud_drawn. Qed.

Lemma createButton_drawn (s : Slot) (iconChar : string) (h : SolunaDial) :
  s <> _dialInteractiveArea -> hud_drawn h (createButton s iconChar h).
Proof.
  intros Hs. unfold createButton, new_object, mainContainer_addChild.
  destruct s; try congruence; solve_hud_drawn.
Qed.

Lemma _drawTimeBar_drawn (w : World) : drawn w (_drawTimeBar w).
Proof. unfold _drawTimeBar, update, new_object. solve_drawn. Qed.

Lemma _drawMainHudArea_drawn (w : World) : drawn w (_drawMainHudArea w).
Proof. unfold _drawMainHudArea, new_object. solve_drawn. Qed.

Lemma _drawRadialDialBackground_drawn (w : World) :
  drawn w (_drawRadialDialBackground w).
Proof. unfold _drawRadialDialBackground, new_object. solve_drawn. Qed.

Lemma _drawDialMarker_drawn (w : World) : drawn w (_drawDialMarker w).
Proof. unfold _drawDialMarker, new_object. solve_drawn. Qed.

Lemma _drawTimeAndCalendarGroup_drawn (w : World) :
  drawn w (_drawTimeAndCalendarGroup w).
Proof. unfold _drawTimeAndCalendarGroup, new_object. solve_drawn. Qed.

Lemma _drawTimeAdvanceControls_drawn (w : World) :
  drawn w (_drawTimeAdvanceControls w).
Proof.
  unfold _drawTimeAdvanceControls.
  destruct (_mainContainer (hud w)); [|apply drawn_refl].
  assert (D : drawn w
                (on_hud (fun h =>
                   destroy_slot _advanceDayButton
                     (destroy_slot _advanceHourButton
                        (destroy_slot _rewindDayButton
                           (destroy_slot _rewindHourButton h)))) w)).
  { apply on_hud_drawn.
    repeat (eapply hud_drawn_trans; [|apply destroy_slot_drawn]).
    apply hud_drawn_refl. }
  destruct (negb (user_isGM (game w))); auto.
  eapply drawn_trans; [exact D|]. apply on_hud_drawn.
  repeat (eapply hud_drawn_trans; [|apply createButton_drawn; discriminate]).
  apply hud_drawn_refl.
Qed.

(** ** The weather text and the order of the children *)

Lemma last_child_app (l : list nat) (x : nat) : last_child (l ++ [x]) = Some x.
Proof. unfold last_child. now rewrite rev_app_distr. Qed.

Lemma existsb_In (x : nat) (l : list nat) : existsb (Nat.eqb x) l = true <-> In x l.
Proof.
  rewrite existsb_exists. split.
  - intros (y & Hy & E). apply Nat.eqb_eq in E. now subst.
  - intros H. exists x. split; auto. apply Nat.eqb_refl.
Qed.

Lemma last_child_In (l : list nat) (x : nat) : last_child l = Some x -> In x l.
Proof.
  unfold last_child. intros H. apply in_rev.
  destruct (rev l); inversion H; subst. now left.
Qed.

Lemma weather_on_top_attached (w : World) :
  weather_on_top w = true -> weather_attached w = true.
Proof.
  unfold weather_on_top, weather_attached.
  destruct (slot _weatherText w) as [t|]; auto.
  destruct (kids w) as [c|]; auto.
  destruct (last_child c) as [x|] eqn:E; try discriminate.
  intros H. apply Nat.eqb_eq in H. subst x.
  apply existsb_In. now apply last_child_In.
Qed.

Lemma index_of_In (id : nat) (l : list nat) :
  In id l -> exists k, index_of id l = Some k /\ (k < List.length l)%nat.
Proof.
  induction l as [|x r IH]; simpl; [tauto|].
  intros H. destruct (Nat.eqb x id) eqn:E.
  - exists O. split; auto. lia.
  - destruct H as [H|H]; [subst; rewrite Nat.eqb_refl in E; discriminate|].
    destruct (IH H) as (k & Hk & Hlt). exists (S k). rewrite Hk. split; auto. lia.
Qed.

Lemma remove_at_length (k : nat) (l : list nat) :
  (k < List.length l)%nat -> List.length (remove_at k l) = (List.length l - 1)%nat.
Proof.
  intros H. unfold remove_at.
  rewrite length_app, length_firstn, length_skipn. lia.
Qed.

Lemma insert_at_end (x : nat) (l : list nat) :
  insert_at (List.length l) x l = (l ++ [x])%list.
Proof. unfold insert_at. now rewrite firstn_all, skipn_all. Qed.

(** Moving a child to the last index makes it the last child. *)
Lemma setChildIndex_last (id : nat) (children : list nat) :
  In id children ->
  exists l,
    setChildIndex id (Z.of_nat (List.length children) - 1)%Z children
    = Returns (l ++ [id])%list.
Proof.
  intros H. destruct (index_of_In id children H) as (k & Hk & Hlt).
  unfold setChildIndex. rewrite Hk.
  assert (Hlen : (0 < List.length children)%nat) by lia.
  replace ((Z.of_nat (List.length children) - 1 <? 0)%Z) with false
    by (symmetry; apply Z.ltb_ge; lia).
  replace ((Z.of_nat (List.length children) <=? Z.of_nat (List.length children) - 1)%Z)
    with false by (symmetry; apply Z.leb_gt; lia).
  cbn [orb]. exists (remove_at k children). f_equal.
  replace (Z.to_nat (Z.of_nat (List.length children) - 1))
    with (List.length (remove_at k children))
    by (rewrite remove_at_length; lia).
  apply insert_at_end.
Qed.

Lemma slot_on_hud (s : Slot) (f : SolunaDial -> SolunaDial) (w : World) :
  slot s (on_hud f w) = nodes (f (hud w)) s.
Proof. reflexivity. Qed.

Lemma slot_on_hud_nodes (s : Slot) (f : SolunaDial -> SolunaDial) (w : World) :
  nodes (hud (on_hud f w)) s = nodes (f (hud w)) s.
Proof. reflexivity. Qed.

Lemma slot_console_line (s : Slot) (l : LogLevel) (msg : string) (w : World) :
  slot s (console_line l msg w) = slot s w.
Proof. reflexivity. Qed.

(** [_ensureWeatherTextOnTop] on an attached weather text returns, and the
    weather text is then the last child. *)
Lemma _ensureWeatherTextOnTop_attached (w : World) :
  weather_attached w = true ->
  exists w', _ensureWeatherTextOnTop w = Returns w' /\ retopped w w'.
Proof.
  unfold weather_attached, _ensureWeatherTextOnTop, kids.
  destruct (slot _weatherText w) as [t|] eqn:Et.
  - destruct (_mainContainer (hud w)) as [c|] eqn:Ec; [|discriminate].
    intros H. apply existsb_In in H.
    destruct (setChildIndex_last _ _ H) as (l & ->). cbn [bind].
    eexists. split; [reflexivity|].
    split; try reflexivity.
    + unfold weather_on_top, kids, slot, console_log, console_line, on_hud.
      cbn. now rewrite last_child_app, Nat.eqb_refl.
    + unfold has_container, kids. cbn. now rewrite Ec.
    + unfold console_log. rewrite slot_console_line, slot_on_hud.
      rewrite nodes_assign_same, Et. reflexivity.
    + unfold console_log. rewrite slot_console_line, slot_on_hud.
      rewrite nodes_assign_same, Et. reflexivity.
    + intros s Hs. unfold console_log. rewrite slot_console_line, slot_on_hud.
      now rewrite nodes_assign_other.
  - intros _. exists w. split.
    + now destruct (_mainContainer (hud w)).
    + split; try reflexivity. unfold weather_on_top. now rewrite Et.
Qed.

(** ** Weather updates *)

(** Naming the facts of a [retopped] pair. *)
Ltac open_retopped T :=
  destruct T as
    [top_on_top0 top_game0 top_style0 top_weather0 top_container0 top_text0
     top_id0 top_slots0 top_next_id0 top_emitted0 top_notifications0].

Lemma updateWeatherDisplay_attached (newStatus : JsValue) (w : World) :
  weather_attached w = true ->
  exists w',
    updateWeatherDisplay newStatus w = Returns w'
    /\ weather_on_top w' = true
    /\ game w' = game w
    /\ style_of (hud w') = style_of (hud w)
    /\ has_container w' = has_container w
    /\ emitted w' = emitted w /\ notifications w' = notifications w
    /\ match slot _weatherText w with
       | Some _ =>
           let label :=
             match newStatus with
             | VString s => s
             | _ => _currentWeather (hud w)
             end in
           _currentWeather (hud w') = label
           /\ option_map text (slot _weatherText w') = Some (toUpperCase label)
       | None => w' = w
       end.
Proof.
  intros Ha. unfold updateWeatherDisplay.
  destruct (slot _weatherText w) as [t|] eqn:Et.
  2:{ exists w. repeat split; auto. unfold weather_on_top. now rewrite Et. }
  match goal with |- context [_ensureWeatherTextOnTop ?x] => set (w2 := x) end.
  set (label := match newStatus with
                | VString s => s
                | _ => _currentWeather (hud w)
                end).
  unfold slot in Et.
  assert (Et2 : slot _weatherText w2 = Some (with_text (toUpperCase label) t)).
  { unfold w2, label. rewrite slot_on_hud.
    destruct newStatus; cbv beta;
      (erewrite nodes_update_same; [reflexivity | exact Et]). }
  assert (El : _currentWeather (hud w2) = label).
  { unfold w2, label, on_hud, update.
    destruct newStatus; cbn; rewrite Et; reflexivity. }
  assert (Ek : kids w2 = kids w).
  { unfold w2, kids, on_hud, update.
    destruct newStatus; cbn; rewrite Et; reflexivity. }
  assert (Es : style_of (hud w2) = style_of (hud w)
               /\ game w2 = game w /\ emitted w2 = emitted w
               /\ notifications w2 = notifications w).
  { unfold w2, on_hud, update.
    destruct newStatus; cbn; rewrite Et; repeat split; reflexivity. }
  destruct Es as (Es & Eg & Ee & En).
  assert (Ha2 : weather_attached w2 = true).
  { unfold weather_attached, slot in *. now rewrite Et2, Ek, Et in *. }
  destruct (_ensureWeatherTextOnTop_attached w2 Ha2) as (w' & E & T).
  exists w'. split; [exact E|]. open_retopped T.
  repeat split; try congruence.
  - rewrite top_container0. unfold has_container. now rewrite Ek.
  - rewrite top_text0, Et2. reflexivity.
Qed.

(** ** The full redraw *)

Lemma hud_drawn_framed (h h' : SolunaDial) : hud_drawn h h' -> hud_framed h h'.
Proof.
  intros [s x a n c]. split; auto.
  intros K b Hb. rewrite a in Hb. specialize (K b Hb). lia.
Qed.

Lemma drawn_framed (w w' : World) : drawn w w' -> framed w w'.
Proof. intros [g d]. split; auto using hud_drawn_framed. Qed.

Lemma framed_refl (w : World) : framed w w.
Proof. apply drawn_framed, drawn_refl. Qed.

Lemma framed_trans (w1 w2 w3 : World) : framed w1 w2 -> framed w2 w3 -> framed w1 w3.
Proof.
  intros [g1 [s1 x1 a1 c1]] [g2 [s2 x2 a2 c2]].
  split; [congruence|]. split; try congruence; tauto.
Qed.

Lemma framed_console_line (l : LogLevel) (msg : string) (w : World) :
  framed w (console_line l msg w).
Proof. exact (framed_refl w). Qed.

Lemma _createDialInteractiveArea_framed (w : World) :
  framed w (_createDialInteractiveArea w).
Proof.
  unfold _createDialInteractiveArea.
  destruct (_mainContainer (hud w)) as [c|] eqn:Ec; [|apply framed_refl].
  destruct (negb (user_isGM (game w))); [apply framed_refl|].
  split; [reflexivity|].
  unfold console_log, console_line, on_hud, destroy_slot, destroy, new_object,
    mainContainer_addChild.
  split.
  - case_matches; reflexivity.
  - case_matches; reflexivity.
  - intros _ a. case_matches; cbn; intros Ha; inversion Ha; subst; cbn; lia.
  - case_matches; cbn; rewrite Ec; cbn; split; intros; congruence.
Qed.

Lemma _createDialGradientAndMask_framed (w : World) :
  framed w (_createDialGradientAndMask w).
Proof.
  unfold _createDialGradientAndMask.
  destruct (_mainContainer (hud w)) as [c|] eqn:Ec; [|apply framed_refl].
  destruct (DIAL_RADIUS (dims (hud w)) <=? lit 0); [apply framed_refl|].
  match goal with |- context [Texture_from _ _] => idtac end.
  set (w1 := on_hud _ w).
  assert (D : drawn w w1).
  { unfold w1, destroy. solve_drawn. }
  destruct (Texture_from (game w) _).
  - eapply framed_trans; [apply drawn_framed, D|].
    apply drawn_framed. unfold new_object. solve_drawn.
  - eapply framed_trans; [apply drawn_framed, D|].
    eapply framed_trans; [apply framed_console_line|].
    apply _createDialInteractiveArea_framed.
  - eapply framed_trans; [apply drawn_framed, D|].
    eapply framed_trans; [apply framed_console_line|].
    apply _createDialInteractiveArea_framed.
Qed.

Lemma In_addChild (id x : nat) (children : list nat) :
  In x (addChild id children) <-> x = id \/ (x <> id /\ In x children).
Proof.
  unfold addChild. rewrite in_app_iff. simpl. split.
  - intros [H|[H|[]]]; auto. apply in_remove in H. tauto.
  - intros [H|[H1 H2]]; auto. left. now apply in_in_remove.
Qed.

Lemma has_container_kids (w : World) :
  has_container w = true -> exists c, _mainContainer (hud w) = Some c.
Proof.
  unfold has_container, kids. destruct (_mainContainer (hud w)); eauto.
  discriminate.
Qed.

(** [_drawWeatherText] makes a new weather text and leaves it on top. *)
Lemma _drawWeatherText_spec (w : World) :
  has_container w = true -> area_known (hud w) ->
  exists w' t,
    _drawWeatherText w = Returns w'
    /\ slot _weatherText w' = Some t
    /\ weather_on_top w' = true
    /\ (node_id t < next_id (hud w'))%nat
    /\ (forall a, slot _dialInteractiveArea w' = Some a -> node_id a <> node_id t)
    /\ game w' = game w
    /\ style_of (hud w') = style_of (hud w)
    /\ _currentWeather (hud w') = _currentWeather (hud w)
    /\ text t = _currentWeather (hud w).
Proof.
  intros Hc Hk. destruct (has_container_kids w Hc) as (c & Ec).
  unfold _drawWeatherText. rewrite Ec.
  set (w1 := on_hud _ w).
  assert (F : exists t1 c1,
             slot _weatherText w1 = Some t1 /\ node_id t1 = next_id (hud w)
             /\ kids w1 = Some (addChild (next_id (hud w)) c1)
             /\ slot _dialInteractiveArea w1 = slot _dialInteractiveArea w
             /\ next_id (hud w1) = S (next_id (hud w))
             /\ game w1 = game w /\ style_of (hud w1) = style_of (hud w)
             /\ _currentWeather (hud w1) = _currentWeather (hud w)
             /\ text t1 = _currentWeather (hud w)).
  { unfold w1, on_hud, destroy_slot, destroy, new_object, mainContainer_addChild,
      kids, slot.
    destruct (nodes (hud w) _weatherText) as [old|]; cbn; rewrite Ec; cbn;
      eexists; eexists; repeat split; reflexivity. }
  destruct F as (t1 & c1 & Et1 & Eid & Ek1 & Ea1 & En1 & Eg1 & Es1 & Ew1 & Ex1).
  assert (Ha1 : weather_attached w1 = true).
  { unfold weather_attached. rewrite Et1, Ek1. apply existsb_In.
    apply In_addChild. now left. }
  destruct (_ensureWeatherTextOnTop_attached w1 Ha1) as (w' & E & T).
  open_retopped T. rewrite Et1 in top_id0, top_text0. cbn in top_id0, top_text0.
  destruct (slot _weatherText w') as [t|] eqn:Et'; [|discriminate].
  cbn in top_id0, top_text0. injection top_id0 as Eidt. injection top_text0 as Ext.
  exists w', t. split; [exact E|]. repeat split; try congruence.
  - rewrite top_next_id0, En1, Eidt, Eid. lia.
  - intros a Ha. rewrite top_slots0 in Ha by discriminate.
    rewrite Ea1 in Ha. apply Hk in Ha. rewrite Eidt, Eid. lia.
Qed.

(** A new interactive area does not displace the weather text. *)
Lemma _createDialInteractiveArea_weather (w : World) (t : Node) :
  slot _weatherText w = Some t ->
  weather_attached w = true ->
  (node_id t < next_id (hud w))%nat ->
  (forall a, slot _dialInteractiveArea w = Some a -> node_id a <> node_id t) ->
  slot _weatherText (_createDialInteractiveArea w) = Some t
  /\ weather_attached (_createDialInteractiveArea w) = true.
Proof.
  intros Et Ha Hlt Hne. unfold _createDialInteractiveArea.
  destruct (_mainContainer (hud w)) as [c|] eqn:Ec; [|auto].
  destruct (negb (user_isGM (game w))); [auto|].
  unfold weather_attached in *. rewrite Et in Ha. unfold kids in Ha.
  rewrite Ec in Ha. apply existsb_In in Ha.
  unfold console_log. rewrite slot_console_line, slot_on_hud.
  unfold kids, console_line, on_hud, destroy_slot, destroy, new_object,
    mainContainer_addChild, slot in *.
  destruct (nodes (hud w) _dialInteractiveArea) as [a|] eqn:Ea; cbn;
    rewrite Et, Ec; cbn; (split; [reflexivity|]);
    apply existsb_In, In_addChild; right; (split; [lia|]); auto.
  apply in_in_remove; auto. intros E. now apply (Hne a).
Qed.

Lemma _redrawAllElements_spec (w : World) :
  has_container w = true ->
  exists w',
    _redrawAllElements w = Returns w'
    /\ weather_on_top w' = true
    /\ (exists t, slot _weatherText w' = Some t /\ text t = _currentWeather (hud w))
    /\ has_container w' = true
    /\ game w' = game w
    /\ style_of (hud w') = style_of (hud w)
    /\ _currentWeather (hud w') = _currentWeather (hud w).
Proof.
  intros Hc. unfold _redrawAllElements.
  set (w0 := match slot _dialInteractiveArea w with Some _ => _ | None => w end).
  assert (F0 : game w0 = game w /\ style_of (hud w0) = style_of (hud w)
               /\ _currentWeather (hud w0) = _currentWeather (hud w)
               /\ has_container w0 = true /\ area_known (hud w0)).
  { unfold w0, slot, area_known, has_container, kids in *.
    destruct (nodes (hud w) _dialInteractiveArea) as [a|] eqn:Ea.
    - cbn. destruct (_mainContainer (hud w)); try discriminate.
      repeat split; auto. discriminate.
    - repeat split; auto. intros a Ha. congruence. }
  destruct F0 as (Eg0 & Es0 & Ew0 & Hc0 & Hk0).
  match goal with
  | |- context [_drawWeatherText ?x] => set (w7 := x)
  end.
  assert (F7 : framed w0 w7).
  { unfold w7.
    repeat (eapply framed_trans;
            [|first [ apply _createDialGradientAndMask_framed
                    | apply drawn_framed;
                      first [ apply _drawTimeAdvanceControls_drawn
                            | apply _drawTimeAndCalendarGroup_drawn
                            | apply _drawDialMarker_drawn
                            | apply _drawRadialDialBackground_drawn
                            | apply _drawMainHudArea_drawn
                            | apply _drawTimeBar_drawn ]]]).
    apply framed_refl. }
  destruct F7 as [Eg7 [Es7 Ew7 Ea7 Ec7]].
  assert (Hc7 : has_container w7 = true).
  { unfold has_container, kids in *.
    destruct (_mainContainer (hud w7)); auto.
    destruct (_mainContainer (hud w0)); try discriminate.
    destruct Ec7 as [Ec7 _]. now specialize (Ec7 eq_refl). }
  destruct (_drawWeatherText_spec w7 Hc7 (Ea7 Hk0))
    as (w8 & t & -> & Et8 & Top8 & Hlt8 & Hne8 & Eg8 & Es8 & Ew8 & Ex8).
  cbn [bind].
  destruct (_createDialInteractiveArea_weather w8 t Et8
              (weather_on_top_attached _ Top8) Hlt8 Hne8) as (Et9 & Ha9).
  destruct (_createDialInteractiveArea_framed w8) as [Eg9 [Es9 Ew9 _ Ec9]].
  destruct (_ensureWeatherTextOnTop_attached _ Ha9) as (w10 & -> & T).
  cbn [bind]. open_retopped T. eexists. split; [reflexivity|].
  assert (Et10 : exists t', slot _weatherText w10 = Some t'
                            /\ text t' = _currentWeather (hud w)).
  { rewrite Et9 in top_text0. cbn in top_text0.
    destruct (slot _weatherText w10) as [t'|]; [|discriminate].
    cbn in top_text0. exists t'. split; congruence. }
  repeat split; try exact top_on_top0; try exact Et10.
  - change (has_container w10 = true). rewrite top_container0.
    unfold has_container, kids in *.
    destruct (_mainContainer (hud (_createDialInteractiveArea w8))); auto.
    destruct (_mainContainer (hud w8)) eqn:E8.
    + destruct Ec9 as [Ec9 _]. now specialize (Ec9 eq_refl).
    + unfold weather_on_top, kids in Top8. now rewrite Et8, E8 in Top8.
  - change (game w10 = game w). congruence.
  - change (style_of (hud w10) = style_of (hud w)). congruence.
  - change (_currentWeather (hud w10) = _currentWeather (hud w)). congruence.
Qed.

(** ** Text and rotation updates keep the scene graph *)

Lemma kept_on_top (w w' : World) : kept w w' -> weather_on_top w' = weather_on_top w.
Proof. intros [g s x k t]. unfold weather_on_top. now rewrite t, k. Qed.

Lemma kept_attached (w w' : World) :
  kept w w' -> weather_attached w' = weather_attached w.
Proof. intros [g s x k t]. unfold weather_attached. now rewrite t, k. Qed.

Lemma kept_container (w w' : World) : kept w w' -> has_container w' = has_container w.
Proof. intros [g s x k t]. unfold has_container. now rewrite k. Qed.

Lemma kept_update (s : Slot) (f : Node -> Node) (w : World) :
  s <> _weatherText -> kept w (on_hud (update s f) w).
Proof.
  intros Hs. split.
  - reflexivity.
  - unfold on_hud, update. cbn. now destruct (nodes (hud w) s).
  - unfold on_hud, update. cbn. now destruct (nodes (hud w) s).
  - unfold kids, on_hud, update. cbn. now destruct (nodes (hud w) s).
  - rewrite slot_on_hud. now apply nodes_update_other.
Qed.

Lemma kept_refl (w : World) : kept w w.
Proof. now split. Qed.

Lemma kept_trans (w1 w2 w3 : World) : kept w1 w2 -> kept w2 w3 -> kept w1 w3.
Proof. intros [] []. split; congruence. Qed.

Lemma updateTimeDisplay_kept (w : World) : kept w (updateTimeDisplay w).
Proof.
  unfold updateTimeDisplay. destruct (slot _timeText w); [|apply kept_refl].
  apply kept_update. discriminate.
Qed.

Lemma _updateDialRotation_kept (w : World) : kept w (_updateDialRotation w).
Proof.
  unfold _updateDialRotation.
  destruct (slot _dialGradientSprite w); [|apply kept_refl].
  apply kept_update. discriminate.
Qed.

(** Whenever [updateCalendarDisplay] returns, it has written a text at
    most. *)
Lemma updateCalendarDisplay_kept (w w' : World) :
  updateCalendarDisplay w = Returns w' -> kept w w'.
Proof.
  unfold updateCalendarDisplay. destruct (slot _calendarText w).
  - destruct (simpleCalendar (game w)) as [| | |[|c]]; intros H;
      inversion H; apply kept_update; discriminate.
  - intros H. inversion H. apply kept_refl.
Qed.

(** [updateCalendarDisplay] returns on a host where the global is
    declared, whatever the calendar does. *)
Lemma updateCalendarDisplay_returns (w : World) :
  SimpleCalendar_declared (game w) = true ->
  exists w', updateCalendarDisplay w = Returns w' /\ kept w w'.
Proof.
  intros Hd.
  assert (E : exists w', updateCalendarDisplay w = Returns w').
  { unfold updateCalendarDisplay, SimpleCalendar_declared in *.
    destruct (slot _calendarText w); [|eauto].
    destruct (simpleCalendar (game w)) as [| | |[|c]]; try discriminate; eauto. }
  destruct E as (w' & E). exists w'. split; [exact E|].
  exact (updateCalendarDisplay_kept _ _ E).
Qed.

(** Where no global is declared and a calendar text exists, it throws. *)
Lemma updateCalendarDisplay_throws (w : World) (t : Node) :
  simpleCalendar (game w) = ScUndeclared -> slot _calendarText w = Some t ->
  updateCalendarDisplay w = Throws ReferenceError_SimpleCalendar.
Proof. intros Hg Ht. unfold updateCalendarDisplay. now rewrite Ht, Hg. Qed.

Lemma refresh_content_spec (w : World) :
  weather_attached w = true -> SimpleCalendar_declared (game w) = true ->
  exists w',
    refresh_content w = Returns w'
    /\ weather_on_top w' = true
    /\ has_container w' = has_container w
    /\ game w' = game w
    /\ style_of (hud w') = style_of (hud w)
    /\ _currentWeather (hud w') = _currentWeather (hud w).
Proof.
  intros Ha Hd. unfold refresh_content.
  assert (Hd0 : SimpleCalendar_declared (game (updateTimeDisplay w)) = true)
    by (now rewrite (kept_game _ _ (updateTimeDisplay_kept w))).
  destruct (updateCalendarDisplay_returns (updateTimeDisplay w) Hd0)
    as (w1 & -> & K1).
  cbn [bind].
  assert (K : kept w w1)
    by (eapply kept_trans; [apply updateTimeDisplay_kept | exact K1]).
  assert (Ha1 : weather_attached w1 = true) by (now rewrite (kept_attached _ _ K)).
  destruct (updateWeatherDisplay_attached VUndefined w1 Ha1)
    as (w2 & -> & Top & Eg & Es & Ec & _ & _ & Hw).
  cbn [bind]. eexists. split; [reflexivity|].
  pose proof (_updateDialRotation_kept w2) as K2.
  destruct K as [g s x k t]. destruct K2 as [g2 s2 x2 k2 t2].
  repeat split.
  - now rewrite (kept_on_top w2) by (split; auto).
  - unfold has_container in *. rewrite k2. rewrite <- k. exact Ec.
  - congruence.
  - congruence.
  - rewrite x2, <- x. destruct (slot _weatherText w1); [apply Hw | now subst].
Qed.

(** ** What a redraw sends to the console and defers *)

Lemma extends_refl (w : World) : extends w w.
Proof. split; auto. exists []. now rewrite app_nil_r. Qed.

Lemma extends_trans (w1 w2 w3 : World) :
  extends w1 w2 -> extends w2 w3 -> extends w1 w3.
Proof.
  intros [(l1 & c1) t1 e1 n1 i1] [(l2 & c2) t2 e2 n2 i2].
  split; try congruence; try lia.
  exists (l1 ++ l2)%list. now rewrite c2, c1, app_assoc.
Qed.

Lemma extends_hud (f : SolunaDial -> SolunaDial) (w : World) :
  (next_id (hud w) <= next_id (f (hud w)))%nat -> extends w (on_hud f w).
Proof. intros H. split; auto. exists []. cbn. now rewrite app_nil_r. Qed.

Lemma extends_console_line (l : LogLevel) (msg : string) (w : World) :
  extends w (console_line l msg w).
Proof. split; auto. eexists. reflexivity. Qed.

Lemma drawn_extends (w w' : World) :
  drawn w w' -> console w' = console w -> timeouts w' = timeouts w ->
  emitted w' = emitted w -> notifications w' = notifications w ->
  extends w w'.
Proof.
  intros [_ [_ _ _ Hn _]] Hc Ht He Hno. split; auto.
  exists []. now rewrite app_nil_r.
Qed.


Lemma _drawTimeBar_extends (w : World) : extends w (_drawTimeBar w).
Proof.
  apply drawn_extends; [apply _drawTimeBar_drawn | ..];
    unfold _drawTimeBar; now destruct (_mainContainer (hud w)).
Qed.

Lemma _drawMainHudArea_extends (w : World) : extends w (_drawMainHudArea w).
Proof.
  apply drawn_extends; [apply _drawMainHudArea_drawn | ..];
    unfold _drawMainHudArea; now destruct (_mainContainer (hud w)).
Qed.

Lemma _drawRadialDialBackground_extends (w : World) :
  extends w (_drawRadialDialBackground w).
Proof.
  apply drawn_extends; [apply _drawRadialDialBackground_drawn | ..];
    unfold _drawRadialDialBackground; now destruct (_mainContainer (hud w)).
Qed.

Lemma _drawDialMarker_extends (w : World) : extends w (_drawDialMarker w).
Proof.
  apply drawn_extends; [apply _drawDialMarker_drawn | ..];
    unfold _drawDialMarker; now destruct (_mainContainer (hud w)).
Qed.

Lemma _drawTimeAndCalendarGroup_extends (w : World) :
  extends w (_drawTimeAndCalendarGroup w).
Proof.
  apply drawn_extends; [apply _drawTimeAndCalendarGroup_drawn | ..];
    unfold _drawTimeAndCalendarGroup; now destruct (_mainContainer (hud w)).
Qed.

Lemma _drawTimeAdvanceControls_extends (w : World) :
  extends w (_drawTimeAdvanceControls w).
Proof.
  apply drawn_extends; [apply _drawTimeAdvanceControls_drawn | ..];
    unfold _drawTimeAdvanceControls; destruct (_mainContainer (hud w)); auto;
    now destruct (negb (user_isGM (game w))).
Qed.

Lemma _createDialInteractiveArea_extends (w : World) :
  extends w (_createDialInteractiveArea w).
Proof.
  unfold _createDialInteractiveArea.
  destruct (_mainContainer (hud w)); [|apply extends_refl].
  destruct (negb (user_isGM (game w))); [apply extends_refl|].
  eapply extends_trans; [|apply extends_console_line].
  apply extends_hud. unfold destroy_slot, destroy, new_object, mainContainer_addChild.
  destruct (nodes (hud w) _dialInteractiveArea); cbn; lia.
Qed.

Lemma _createDialGradientAndMask_extends (w : World) :
  extends w (_createDialGradientAndMask w).
Proof.
  unfold _createDialGradientAndMask.
  destruct (_mainContainer (hud w)); [|apply extends_refl].
  destruct (DIAL_RADIUS (dims (hud w)) <=? lit 0); [apply extends_refl|].
  set (w1 := on_hud _ w).
  assert (X1 : extends w w1).
  { unfold w1. apply extends_hud. unfold destroy.
    destruct (nodes (hud w) _dialGradientContainer); cbn; lia. }
  destruct (Texture_from (game w) _).
  - eapply extends_trans; [exact X1|]. apply extends_hud.
    unfold new_object, mainContainer_addChild. cbn. lia.
  - eapply extends_trans; [exact X1|].
    eapply extends_trans; [apply extends_console_line|].
    apply _createDialInteractiveArea_extends.
  - eapply extends_trans; [exact X1|].
    eapply extends_trans; [apply extends_console_line|].
    apply _createDialInteractiveArea_extends.
Qed.









(** ** Which objects a redraw replaces *)

Lemma slots_kept_refl (S : list Slot) (w : World) : slots_kept S w w.
Proof. intros s _. reflexivity. Qed.

Lemma slots_kept_trans (S : list Slot) (w1 w2 w3 : World) :
  slots_kept S w1 w2 -> slots_kept S w2 w3 -> slots_kept S w1 w3.
Proof. intros H1 H2 s Hs. now rewrite (H2 s Hs), (H1 s Hs). Qed.

Lemma slots_kept_incl (S S' : list Slot) (w w' : World) :
  incl S S' -> slots_kept S' w w' -> slots_kept S w w'.
Proof. intros I H s Hs. apply H, I, Hs. Qed.

Ltac each_slot :=
  let s := fresh "s" in
  let Hs := fresh "Hs" in
  intros s Hs; cbn [In texts] in Hs;
  repeat (destruct Hs as [<-|Hs]); try contradiction.

Lemma nodes_destroy_slot (s : Slot) (h : SolunaDial) :
  nodes (destroy_slot s h) = nodes h.
Proof. unfold destroy_slot. now destruct (nodes h s). Qed.

Lemma nodes_createButton_other (s s' : Slot) (iconChar : string) (h : SolunaDial) :
  s' <> s -> nodes (createButton s iconChar h) s' = nodes h s'.
Proof.
  intros H. unfold createButton, new_object. cbv zeta.
  now rewrite nodes_assign_other.
Qed.

Lemma _drawTimeAdvanceControls_texts (w : World) :
  slots_kept texts w (_drawTimeAdvanceControls w).
Proof.
  unfold _drawTimeAdvanceControls.
  destruct (_mainContainer (hud w)); [|apply slots_kept_refl].
  destruct (negb (user_isGM (game w))); each_slot;
    rewrite ?slot_on_hud; cbv beta;
    rewrite ?nodes_createButton_other by discriminate;
    unfold on_hud; cbn [hud set_hud];
    now rewrite ?nodes_destroy_slot.
Qed.

Lemma _createDialInteractiveArea_kept (S : list Slot) (w : World) :
  ~ In _dialInteractiveArea S -> slots_kept S w (_createDialInteractiveArea w).
Proof.
  intros Hn. unfold _createDialInteractiveArea.
  destruct (_mainContainer (hud w)); [|apply slots_kept_refl].
  destruct (negb (user_isGM (game w))); [apply slots_kept_refl|].
  intros s Hs. unfold console_log. rewrite slot_console_line, slot_on_hud.
  unfold new_object, mainContainer_addChild. cbv zeta. cbn [nodes set_mainContainer].
  rewrite nodes_assign_other by (intros ->; contradiction).
  cbn [nodes set_next_id]. now rewrite nodes_destroy_slot.
Qed.

Lemma _createDialGradientAndMask_texts (w : World) :
  slots_kept texts w (_createDialGradientAndMask w).
Proof.
  unfold _createDialGradientAndMask.
  destruct (_mainContainer (hud w)); [|apply slots_kept_refl].
  destruct (DIAL_RADIUS (dims (hud w)) <=? lit 0); [apply slots_kept_refl|].
  set (w1 := on_hud _ w).
  assert (K1 : slots_kept texts w w1).
  { unfold w1. each_slot; rewrite slot_on_hud;
      (destruct (nodes (hud w) _dialGradientContainer); [|reflexivity]);
      now rewrite !nodes_assign_other by discriminate. }
  assert (Ka : forall x, slots_kept texts x (_createDialInteractiveArea x)).
  { intros x. apply _createDialInteractiveArea_kept. cbn. intuition discriminate. }
  destruct (Texture_from (game w) _).
  - eapply slots_kept_trans; [exact K1|].
    each_slot; rewrite slot_on_hud; unfold new_object, mainContainer_addChild;
      cbv zeta; cbn [nodes set_mainContainer];
      now rewrite !nodes_assign_other by discriminate.
  - eapply slots_kept_trans; [exact K1|]. apply (Ka (console_log _ w1)).
  - eapply slots_kept_trans; [exact K1|]. apply (Ka (console_log _ w1)).
Qed.

Lemma _ensureWeatherTextOnTop_kept (S : list Slot) (w w' : World) :
  ~ In _weatherText S ->
  _ensureWeatherTextOnTop w = Returns w' -> slots_kept S w w'.
Proof.
  intros Hn. unfold _ensureWeatherTextOnTop.
  destruct (slot _weatherText w) as [t|].
  - destruct (_mainContainer (hud w)) as [c|].
    + destruct (setChildIndex _ _ c); cbn [bind]; [|discriminate].
      intros H. inversion H. intros s Hs.
      unfold console_log. rewrite slot_console_line, slot_on_hud.
      now rewrite nodes_assign_other by (intros ->; contradiction).
    + intros H. inversion H. apply slots_kept_refl.
  - intros H. destruct (_mainContainer (hud w)); inversion H; apply slots_kept_refl.
Qed.

Lemma _drawWeatherText_kept (S : list Slot) (w w' : World) :
  ~ In _weatherText S ->
  _drawWeatherText w = Returns w' -> slots_kept S w w'.
Proof.
  intros Hn. unfold _drawWeatherText. destruct (_mainContainer (hud w)).
  - intros H.
    eapply slots_kept_trans; [|exact (_ensureWeatherTextOnTop_kept S _ _ Hn H)].
    intros s Hs. rewrite slot_on_hud.
    unfold new_object, mainContainer_addChild. cbv zeta. cbn [nodes set_mainContainer].
    rewrite nodes_assign_other by (intros ->; contradiction).
    cbn [nodes set_next_id]. now rewrite nodes_destroy_slot.
  - intros H. inversion H. apply slots_kept_refl.
Qed.

(** [_drawTimeAndCalendarGroup] makes a new time text and a new calendar
    text. *)
Lemma _drawTimeAndCalendarGroup_fresh (w : World) :
  _mainContainer (hud w) <> None ->
  fresh_in _timeText w (_drawTimeAndCalendarGroup w)
  /\ fresh_in _calendarText w (_drawTimeAndCalendarGroup w).
Proof.
  intros Hc. unfold _drawTimeAndCalendarGroup, fresh_in.
  destruct (_mainContainer (hud w)); [|congruence].
  rewrite !slot_on_hud. unfold new_object, mainContainer_addChild, destroy.
  destruct (nodes (hud w) _timeCalendarContainer); cbn;
    (split; eexists; (split; [reflexivity|]); cbn; lia).
Qed.

(** [_drawWeatherText] makes a new weather text. *)
Lemma _drawWeatherText_fresh (w w' : World) :
  _mainContainer (hud w) <> None ->
  _drawWeatherText w = Returns w' -> fresh_in _weatherText w w'.
Proof.
  intros Hc. unfold _drawWeatherText, fresh_in.
  destruct (_mainContainer (hud w)) as [c|] eqn:Ec; [|congruence].
  unfold _ensureWeatherTextOnTop.
  set (w1 := on_hud _ w).
  assert (E1 : exists t, slot _weatherText w1 = Some t /\ node_id t = next_id (hud w)).
  { unfold w1. rewrite slot_on_hud.
    unfold new_object, mainContainer_addChild, destroy_slot, destroy.
    destruct (nodes (hud w) _weatherText); cbn; eexists; split; reflexivity. }
  destruct E1 as (t & Et & Ei). rewrite Et.
  destruct (_mainContainer (hud w1)) as [c1|].
  - destruct (setChildIndex _ _ c1); cbn [bind]; [|discriminate].
    intros H. inversion H. eexists. split.
    + unfold console_log. rewrite slot_console_line, slot_on_hud.
      now rewrite nodes_assign_same.
    + cbn. lia.
  - intros H. inversion H. subst w'. exists t. split; [exact Et | lia].
Qed.

Lemma ids_kept_refl (w : World) : ids_kept w w.
Proof. intros s. reflexivity. Qed.



Lemma _ensureWeatherTextOnTop_ids_kept (w w' : World) :
  _ensureWeatherTextOnTop w = Returns w' -> ids_kept w w'.
Proof.
  unfold _ensureWeatherTextOnTop.
  destruct (slot _weatherText w) as [t|] eqn:Et.
  - destruct (_mainContainer (hud w)) as [c|].
    + destruct (setChildIndex _ _ c); cbn [bind]; [|discriminate].
      intros H. inversion H. intros s.
      unfold console_log. rewrite slot_console_line, slot_on_hud.
      destruct (Slot_eq_dec s _weatherText) as [->|Hne].
      * now rewrite nodes_assign_same, Et.
      * now rewrite nodes_assign_other.
    + intros H. inversion H. apply ids_kept_refl.
  - intros H. destruct (_mainContainer (hud w)); inversion H; apply ids_kept_refl.
Qed.






Lemma fresh_in_slot (s : Slot) (w w1 w2 : World) :
  fresh_in s w w1 -> slot s w2 = slot s w1 -> fresh_in s w w2.
Proof. intros (n & E & H) Es. exists n. split; congruence. Qed.

Lemma fresh_in_ids (s : Slot) (w w1 w2 : World) :
  fresh_in s w w1 -> ids_kept w1 w2 -> fresh_in s w w2.
Proof.
  intros (n & E & H) K. specialize (K s). rewrite E in K. cbn in K.
  destruct (slot s w2) as [n2|] eqn:E2; [|discriminate]. cbn in K.
  exists n2. split; [exact E2|]. injection K as K. lia.
Qed.

Lemma fresh_in_earlier (s : Slot) (w0 w1 w2 : World) :
  fresh_in s w1 w2 -> (next_id (hud w0) <= next_id (hud w1))%nat ->
  fresh_in s w0 w2.
Proof. intros (n & E & H) L. exists n. split; [exact E | lia]. Qed.

Lemma drawn_has_container (w w' : World) :
  drawn w w' -> _mainContainer (hud w) <> None -> _mainContainer (hud w') <> None.
Proof. intros [_ [_ _ _ _ Hc]] H E. apply H, Hc, E. Qed.

Lemma framed_has_container (w w' : World) :
  framed w w' -> _mainContainer (hud w) <> None -> _mainContainer (hud w') <> None.
Proof. intros [_ [_ _ _ Hc]] H E. apply H, Hc, E. Qed.

(** After a full redraw the time text, the calendar text and the weather
    text are new objects. *)
Lemma _redrawAllElements_fresh (w w' : World) :
  has_container w = true ->
  _redrawAllElements w = Returns w' ->
  fresh_in _timeText w w' /\ fresh_in _calendarText w w'
  /\ fresh_in _weatherText w w'.
Proof.
  intros Hc. unfold _redrawAllElements.
  set (w0 := match slot _dialInteractiveArea w with Some _ => _ | None => w end).
  assert (X0 : extends w w0).
  { unfold w0. destruct (slot _dialInteractiveArea w); [|apply extends_refl].
    apply extends_hud. cbn. lia. }
  assert (C0 : _mainContainer (hud w0) <> None).
  { unfold w0, has_container, kids in *.
    destruct (slot _dialInteractiveArea w); cbn;
      destruct (_mainContainer (hud w)); cbn; congruence. }
  set (w4 := _drawDialMarker _).
  assert (D4 : drawn w0 w4).
  { unfold w4.
    repeat (eapply drawn_trans;
            [|first [ apply _drawDialMarker_drawn
                    | apply _drawRadialDialBackground_drawn
                    | apply _drawMainHudArea_drawn
                    | apply _drawTimeBar_drawn ]]).
    apply drawn_refl. }
  assert (X4 : extends w0 w4).
  { unfold w4.
    repeat (eapply extends_trans;
            [|first [ apply _drawDialMarker_extends
                    | apply _drawRadialDialBackground_extends
                    | apply _drawMainHudArea_extends
                    | apply _drawTimeBar_extends ]]).
    apply extends_refl. }
  pose proof (drawn_has_container _ _ D4 C0) as C4.
  destruct (_drawTimeAndCalendarGroup_fresh w4 C4) as (Ft & Fc).
  set (w5 := _drawTimeAndCalendarGroup w4) in *.
  pose proof (drawn_has_container _ _ (_drawTimeAndCalendarGroup_drawn w4) C4) as C5.
  fold w5 in C5.
  set (w7 := _createDialGradientAndMask (_drawTimeAdvanceControls w5)).
  assert (K7 : slots_kept texts w5 w7).
  { unfold w7. eapply slots_kept_trans;
      [apply _drawTimeAdvanceControls_texts | apply _createDialGradientAndMask_texts]. }
  assert (X7 : extends w5 w7).
  { unfold w7. eapply extends_trans;
      [apply _drawTimeAdvanceControls_extends | apply _createDialGradientAndMask_extends]. }
  assert (C7 : _mainContainer (hud w7) <> None).
  { unfold w7. apply (framed_has_container _ _ (_createDialGradientAndMask_framed _)).
    apply (drawn_has_container _ _ (_drawTimeAdvanceControls_drawn _)). exact C5. }
  assert (L4 : (next_id (hud w) <= next_id (hud w4))%nat).
  { destruct X0, X4. lia. }
  assert (L7 : (next_id (hud w) <= next_id (hud w7))%nat).
  { pose proof (_drawTimeAndCalendarGroup_extends w4) as X5. fold w5 in X5.
    destruct X5, X7. lia. }
  destruct (_drawWeatherText w7) as [w8|] eqn:E8; cbn [bind]; [|discriminate].
  destruct (_ensureWeatherTextOnTop (_createDialInteractiveArea w8)) as [w10|] eqn:E10;
    cbn [bind]; [|discriminate].
  intros H. inversion H. subst w'. clear H.
  assert (N1 : ~ In _weatherText texts) by (cbn; intuition discriminate).
  assert (N2 : ~ In _dialInteractiveArea texts) by (cbn; intuition discriminate).
  assert (K10 : slots_kept texts w5 w10).
  { eapply slots_kept_trans; [exact K7|].
    eapply slots_kept_trans; [exact (_drawWeatherText_kept _ _ _ N1 E8)|].
    eapply slots_kept_trans; [exact (_createDialInteractiveArea_kept _ _ N2)|].
    exact (_ensureWeatherTextOnTop_kept _ _ _ N1 E10). }
  split; [|split].
  - apply (fresh_in_earlier _ w w4); [|exact L4].
    apply (fresh_in_slot _ _ w5); [exact Ft|].
    apply (K10 _timeText). cbn. auto.
  - apply (fresh_in_earlier _ w w4); [|exact L4].
    apply (fresh_in_slot _ _ w5); [exact Fc|].
    apply (K10 _calendarText). cbn. auto.
  - apply (fresh_in_earlier _ w w7); [|exact L7].
    apply (fresh_in_ids _ _ (_createDialInteractiveArea w8));
      [|exact (_ensureWeatherTextOnTop_ids_kept _ _ E10)].
    apply (fresh_in_slot _ _ w8); [exact (_drawWeatherText_fresh _ _ C7 E8)|].
    apply (_createDialInteractiveArea_kept [_weatherText]); cbn; intuition discriminate.
Qed.

(** ** The operations that redraw or update the weather *)

Lemma weather_attached_scene (w w' : World) :
  slot _weatherText w' = slot _weatherText w -> kids w' = kids w ->
  weather_attached w' = weather_attached w.
Proof. intros Et Ek. unfold weather_attached. now rewrite Et, Ek. Qed.

Lemma _loadWeatherFromFlag_spec (w : World) :
  weather_attached w = true ->
  exists w',
    _loadWeatherFromFlag w = Returns w'
    /\ weather_on_top w' = true
    /\ has_container w' = has_container w.
Proof.
  intros Ha. unfold _loadWeatherFromFlag.
  match goal with |- context [updateWeatherDisplay ?v ?x] => set (w1 := x) end.
  assert (Ha1 : weather_attached w1 = true).
  { rewrite <- Ha. unfold w1.
    destruct (str_truthy (settings_currentWeather (game w)));
      apply weather_attached_scene; reflexivity. }
  assert (Ec1 : has_container w1 = has_container w).
  { unfold w1. destruct (str_truthy (settings_currentWeather (game w))); reflexivity. }
  destruct (updateWeatherDisplay_attached (VString (_currentWeather (hud w1))) w1 Ha1)
    as (w2 & -> & Top2 & _ & _ & Ec2 & _).
  cbn [bind].
  destruct (_ensureWeatherTextOnTop_attached w2 (weather_on_top_attached _ Top2))
    as (w' & -> & T).
  exists w'. split; [reflexivity|]. open_retopped T. split; congruence.
Qed.

(** A broadcast from another user is applied. *)
Lemma on_socket_applied (data : SocketData) (w : World) :
  weather_attached w = true ->
  String.eqb (data_type data) "weather-update" = true ->
  String.eqb (data_userId data) (user_id (game w)) = false ->
  exists w',
    on_socket data w = Returns w'
    /\ weather_on_top w' = true
    /\ has_container w' = has_container w
    /\ _currentWeather (hud w') = data_weather data
    /\ (forall t, slot _weatherText w = Some t ->
        option_map text (slot _weatherText w') = Some (toUpperCase (data_weather data))).
Proof.
  intros Ha Ht Hu. unfold on_socket. rewrite Ht, Hu. cbn [negb andb].
  match goal with |- context [updateWeatherDisplay ?v ?x] => set (w2 := x) end.
  assert (Ha2 : weather_attached w2 = true)
    by (rewrite <- Ha; apply weather_attached_scene; reflexivity).
  destruct (updateWeatherDisplay_attached (VString (data_weather data)) w2 Ha2)
    as (w3 & -> & Top3 & _ & _ & Ec3 & _ & _ & Hw).
  cbn [bind].
  destruct (_ensureWeatherTextOnTop_attached w3 (weather_on_top_attached _ Top3))
    as (w' & -> & T).
  exists w'. split; [reflexivity|]. open_retopped T.
  change (slot _weatherText w2) with (slot _weatherText w) in Hw.
  change (has_container w2) with (has_container w) in Ec3.
  split; [exact top_on_top0|]. split; [congruence|]. split.
  - rewrite top_weather0.
    destruct (slot _weatherText w); [apply Hw | subst w3; reflexivity].
  - intros t Et. rewrite Et in Hw. rewrite top_text0. apply Hw.
Qed.

Lemma valid_scale_Some (scale : JsValue) (s : number) :
  valid_scale scale = Some s <-> scale = VNumber s /\ (s >? lit 0) = true.
Proof.
  unfold valid_scale. destruct scale; try (split; [discriminate | intros [? _]; discriminate]).
  destruct (n >? lit 0) eqn:E; split.
  - intros H; inversion H; subst; auto.
  - intros [H _]; inversion H; subst; auto.
  - discriminate.
  - intros [H H']; inversion H; subst; congruence.
Qed.

Lemma _initPIXIApp_new (w : World) :
  _pixiApp (hud w) = None ->
  _initPIXIApp w
  = console_log "PIXI Application initialized/resized"
      (on_hud (fun h =>
         set_mainContainer (Some [])
           (set_pixiApp (Some (HUD_WIDTH (dims (hud w)),
                               TOTAL_HUD_HEIGHT (dims (hud w)))) h)) w).
Proof. intros H. unfold _initPIXIApp. now rewrite H. Qed.

(** An accepted scale: the stored scale and the dimensions are those of
    the new scale, and the scene is redrawn and its content refreshed. *)
Lemma setGlobalUiSize_accepts (scale : JsValue) (s : number) (w : World) :
  has_container w = true -> SimpleCalendar_declared (game w) = true ->
  valid_scale scale = Some s ->
  exists w3 w4 w',
    setGlobalUiSize scale w = Returns w'
    /\ _globalUiScale (hud w3) = s
    /\ dims (hud w3) = scaled_dimensions s
    /\ _pixiApp (hud w3)
       = Some (HUD_WIDTH (dims (hud w3)), TOTAL_HUD_HEIGHT (dims (hud w3)))
    /\ _redrawAllElements w3 = Returns w4
    /\ refresh_content w4 = Returns w'
    /\ style_of (hud w') = style_of (hud w3)
    /\ weather_on_top w' = true
    /\ has_container w' = true
    /\ game w' = game w.
Proof.
  intros Hc Hd Hv. unfold setGlobalUiSize. rewrite Hv.
  match goal with |- context [_redrawAllElements ?x] => set (w3 := x) end.
  assert (Eg3 : game w3 = game w).
  { unfold w3, _initPIXIApp.
    change (_pixiApp (hud (_calculateScaledDimensions
                             (on_hud (set_globalUiScale s)
                                (console_log "Setting Global UI Size to:" w)))))
      with (_pixiApp (hud w)).
    destruct (_pixiApp (hud w)); [reflexivity|].
    cbn [hud console_warn console_line set_console].
    destruct (_pixiApp _); reflexivity. }
  assert (F3 : _globalUiScale (hud w3) = s /\ dims (hud w3) = scaled_dimensions s
               /\ _pixiApp (hud w3)
                  = Some (HUD_WIDTH (dims (hud w3)), TOTAL_HUD_HEIGHT (dims (hud w3)))
               /\ has_container w3 = true).
  { unfold w3.
    change (_pixiApp (hud (_calculateScaledDimensions
                             (on_hud (set_globalUiScale s)
                                (console_log "Setting Global UI Size to:" w)))))
      with (_pixiApp (hud w)).
    destruct (_pixiApp (hud w)) eqn:Ep.
    - split; [reflexivity|]. split; [reflexivity|]. split; [reflexivity | exact Hc].
    - rewrite _initPIXIApp_new by exact Ep. repeat split; reflexivity. }
  destruct F3 as (Es3 & Ed3 & Ep3 & Hc3).
  destruct (_redrawAllElements_spec w3 Hc3)
    as (w4 & E4 & Top4 & _ & Hc4 & Eg4 & Es4 & Ew4).
  assert (Hd4 : SimpleCalendar_declared (game w4) = true) by congruence.
  destruct (refresh_content_spec w4 (weather_on_top_attached _ Top4) Hd4)
    as (w' & E' & Top' & Hc' & Eg' & Es' & Ew').
  exists w3, w4, w'. rewrite E4. cbn [bind]. rewrite E'.
  repeat split; auto; congruence.
Qed.

Lemma setGlobalFontFamily_accepts (f : string) (w : World) :
  has_container w = true -> SimpleCalendar_declared (game w) = true ->
  String.eqb (trim f) "" = false ->
  exists w',
    setGlobalFontFamily (VString f) w = Returns w'
    /\ weather_on_top w' = true
    /\ has_container w' = true
    /\ _globalFontFamily (hud w') = f.
Proof.
  intros Hc Hd Hf. unfold setGlobalFontFamily. rewrite Hf. cbn [negb].
  match goal with |- context [_redrawAllElements ?x] => set (w1 := x) end.
  assert (Hc1 : has_container w1 = true) by exact Hc.
  destruct (_redrawAllElements_spec w1 Hc1)
    as (w2 & -> & Top2 & _ & Hc2 & Eg2 & Es2 & Ew2).
  cbn [bind].
  assert (Hd2 : SimpleCalendar_declared (game w2) = true)
    by (rewrite Eg2; exact Hd).
  destruct (refresh_content_spec w2 (weather_on_top_attached _ Top2) Hd2)
    as (w' & -> & Top' & Hc' & Eg' & Es' & Ew').
  cbn [bind]. eexists. split; [reflexivity|].
  repeat split.
  - exact Top'.
  - change (has_container w' = true). congruence.
  - change (_globalFontFamily (hud w') = f).
    assert (E : style_of (hud w') = style_of (hud w1)) by congruence.
    unfold style_of in E. now inversion E.
Qed.

Lemma constructor_spec (g : Game) :
  SimpleCalendar_declared g = true ->
  exists w,
    constructor g = Returns w
    /\ weather_on_top w = true
    /\ has_container w = true.
Proof.
  intros Hd. unfold constructor.
  match goal with |- context [_redrawAllElements ?x] => set (w1 := x) end.
  assert (Hc1 : has_container w1 = true) by reflexivity.
  destruct (_redrawAllElements_spec w1 Hc1)
    as (w2 & -> & Top2 & _ & Hc2 & Eg2 & _).
  cbn [bind].
  assert (Hd2 : SimpleCalendar_declared (game (updateTimeDisplay w2)) = true).
  { rewrite (kept_game _ _ (updateTimeDisplay_kept w2)), Eg2. exact Hd. }
  destruct (updateCalendarDisplay_returns (updateTimeDisplay w2) Hd2)
    as (w3 & -> & K3).
  cbn [bind].
  assert (K4 : kept w2 (_updateDialRotation w3)).
  { eapply kept_trans; [apply updateTimeDisplay_kept|].
    eapply kept_trans; [exact K3 | apply _updateDialRotation_kept]. }
  set (w4 := _updateDialRotation w3) in *.
  assert (Top4 : weather_on_top w4 = true) by (now rewrite (kept_on_top _ _ K4)).
  assert (Hc4 : has_container w4 = true) by (now rewrite (kept_container _ _ K4)).
  destruct (game_ready g).
  - destruct (_loadWeatherFromFlag_spec w4 (weather_on_top_attached _ Top4))
      as (w5 & -> & Top5 & Hc5).
    cbn [bind]. eexists. split; [reflexivity|]. split; [exact Top5|].
    change (has_container w5 = true). congruence.
  - cbn [bind]. eexists. split; [reflexivity|]. split; assumption.
Qed.

(** ** C2: the weather text is the topmost child after a redraw *)

Lemma scene_ready_on_top (w : World) :
  has_container w = true -> weather_on_top w = true -> scene_ready w = true.
Proof.
  intros Hc Ht. unfold scene_ready. now rewrite Hc, (weather_on_top_attached _ Ht).
Qed.

(** C2. After the initial draw, after a full redraw ([_redrawAllElements],
    also as run by an accepted scale or font change) and after a weather
    update (by [updateWeatherDisplay], a peer's broadcast, a change of the
    stored weather, its loading, or a deferred callback), the weather text,
    if there is one, is the last child of the main container.  The full
    redraw and the weather updates return on every host.  The constructor
    and the scale and font setters go on to refresh the calendar text after
    their redraw: they return on a host where the global [SimpleCalendar]
    is declared whenever the calendar module is active. *)
Theorem C2_weather_text_topmost (g : Game) (w : World) :
  scene_ready w = true ->
  (SimpleCalendar_declared g = true ->
   exists w0, constructor g = Returns w0
              /\ weather_on_top w0 = true /\ scene_ready w0 = true)
  /\ (exists w', _redrawAllElements w = Returns w'
                 /\ weather_on_top w' = true /\ scene_ready w' = true)
  /\ (SimpleCalendar_declared (game w) = true ->
      forall scale s, valid_scale scale = Some s ->
        exists w', setGlobalUiSize scale w = Returns w'
                   /\ weather_on_top w' = true /\ scene_ready w' = true)
  /\ (SimpleCalendar_declared (game w) = true ->
      forall f, String.eqb (trim f) "" = false ->
        exists w', setGlobalFontFamily (VString f) w = Returns w'
                   /\ weather_on_top w' = true /\ scene_ready w' = true)
  /\ (forall newStatus,
        exists w', updateWeatherDisplay newStatus w = Returns w'
                   /\ weather_on_top w' = true /\ scene_ready w' = true)
  /\ (forall data,
        String.eqb (data_type data) "weather-update" = true ->
        String.eqb (data_userId data) (user_id (game w)) = false ->
        exists w', on_socket data w = Returns w'
                   /\ weather_on_top w' = true /\ scene_ready w' = true)
  /\ (forall weather,
        exists w', onChange_currentWeather weather w = Returns w'
                   /\ weather_on_top w' = true /\ scene_ready w' = true)
  /\ (forall cb,
        exists w', run_callback cb w = Returns w'
                   /\ weather_on_top w' = true /\ scene_ready w' = true).
Proof.
  intros Hr. unfold scene_ready in Hr. apply andb_prop in Hr. destruct Hr as [Hc Ha].
  split; [|split; [|split; [|split; [|split; [|split; [|split]]]]]].
  - intros Hd. destruct (constructor_spec g Hd) as (w0 & E & Top & Hc0).
    exists w0. auto using scene_ready_on_top.
  - destruct (_redrawAllElements_spec w Hc) as (w' & E & Top & _ & Hc' & _).
    exists w'. auto using scene_ready_on_top.
  - intros Hd scale s Hv.
    destruct (setGlobalUiSize_accepts scale s w Hc Hd Hv)
      as (w3 & w4 & w' & E & _ & _ & _ & _ & _ & _ & Top & Hc' & _).
    exists w'. auto using scene_ready_on_top.
  - intros Hd f Hf.
    destruct (setGlobalFontFamily_accepts f w Hc Hd Hf) as (w' & E & Top & Hc' & _).
    exists w'. auto using scene_ready_on_top.
  - intros newStatus.
    destruct (updateWeatherDisplay_attached newStatus w Ha)
      as (w' & E & Top & _ & _ & Hc' & _).
    exists w'. split; [exact E|]. split; [exact Top|].
    apply scene_ready_on_top; congruence.
  - intros data Ht Hu.
    destruct (on_socket_applied data w Ha Ht Hu) as (w' & E & Top & Hc' & _).
    exists w'. split; [exact E|]. split; [exact Top|].
    apply scene_ready_on_top; congruence.
  - intros weather. unfold onChange_currentWeather.
    match goal with |- context [updateWeatherDisplay ?v ?x] => set (w1 := x) end.
    assert (Ha1 : weather_attached w1 = true) by exact Ha.
    destruct (updateWeatherDisplay_attached (VString weather) w1 Ha1)
      as (w2 & -> & Top2 & _ & _ & Hc2 & _).
    cbn [bind].
    destruct (_ensureWeatherTextOnTop_attached w2 (weather_on_top_attached _ Top2))
      as (w3 & -> & T).
    cbn [bind]. open_retopped T. eexists. split; [reflexivity|].
    split; [exact top_on_top0|].
    apply scene_ready_on_top; [|exact top_on_top0].
    change (has_container w3 = true). rewrite top_container0, Hc2. exact Hc.
  - intros [|]; cbn [run_callback].
    + destruct (_ensureWeatherTextOnTop_attached w Ha) as (w' & E & T).
      exists w'. open_retopped T. split; [exact E|]. split; [assumption|].
      apply scene_ready_on_top; congruence.
    + destruct (_loadWeatherFromFlag_spec w Ha) as (w' & E & Top & Hc').
      exists w'. split; [exact E|]. split; [exact Top|].
      apply scene_ready_on_top; congruence.
Qed.

Lemma C2_weather_text_topmost_witness :
  scene_ready gm_world = true
  /\ SimpleCalendar_declared (game gm_world) = true
  /\ exists w', setGlobalUiSize (VNumber (lit 2)) gm_world = Returns w'
                /\ weather_on_top w' = true /\ scene_ready w' = true.
Proof.
  assert (Hr : scene_ready gm_world = true) by (vm_compute; reflexivity).
  assert (Hd : SimpleCalendar_declared (game gm_world) = true)
    by (vm_compute; reflexivity).
  split; [exact Hr|]. split; [exact Hd|].
  pose proof (C2_weather_text_topmost (game gm_world) gm_world Hr) as H.
  destruct H as (_ & _ & H & _).
  exact (H Hd (VNumber (lit 2)) (lit 2) eq_refl).
Defined.

(** A redraw of the marker alone is not such a redraw: it puts the marker
    back as the last child, above the weather text. *)
Example marker_redraw_covers_weather_text :
  exists w', setDialMarkerOpacity (VNumber (lit_frac 1 2)) gm_world = Returns w'
             /\ weather_on_top w' = false /\ scene_ready w' = true.
Proof. eexists. split; [reflexivity|]. split; vm_compute; reflexivity. Qed.

(** ** C5: opacity setters on a value that is not a number in [0,1] *)

Lemma valid_opacity_Some (alpha : JsValue) (a : number) :
  valid_opacity alpha = Some a
  <-> alpha = VNumber a /\ (a >=? lit 0) = true /\ (a <=? lit 1) = true.
Proof.
  unfold valid_opacity.
  destruct alpha; try (split; [discriminate | intros [? _]; discriminate]).
  destruct (n >=? lit 0) eqn:E0; destruct (n <=? lit 1) eqn:E1; cbn [andb];
    split; intros H;
    first [ discriminate H
          | inversion H; subst; now auto
          | destruct H as (H & H0 & H1); inversion H; subst;
            first [reflexivity | congruence] ].
Qed.

(** The three setters that have an [else] branch reject with one warning
    and leave the instance as it was. *)
Lemma opacity_rejected_with_warning (alpha : JsValue) (w : World) :
  valid_opacity alpha = None ->
  setDialImageOpacity alpha w
  = Returns (console_warn "Invalid Dial Image Opacity value" w)
  /\ setDialMarkerOpacity alpha w
     = Returns (console_warn "Invalid Dial Marker Opacity value" w)
  /\ setGlobalFontOpacity alpha w
     = Returns (console_warn "Invalid Global Font Opacity value" w).
Proof.
  intros H. unfold setDialImageOpacity, setDialMarkerOpacity, setGlobalFontOpacity.
  now rewrite H.
Qed.

(** [setTopBarOpacity] has no [else] branch: a rejected value leaves the
    whole world, console included, as it was. *)
Lemma setTopBarOpacity_rejected_silently (alpha : JsValue) (w : World) :
  valid_opacity alpha = None -> setTopBarOpacity alpha w = Returns w.
Proof. intros H. unfold setTopBarOpacity. now rewrite H. Qed.

(** C5, at the value 1.5: every opacity setter returns and keeps the stored
    opacities (no clamping); the dial-image, marker and font setters log a
    warning, but [setTopBarOpacity] logs nothing. *)
Theorem C5_out_of_range_opacity (w : World) :
  valid_opacity (VNumber (lit_frac 3 2)) = None
  /\ setTopBarOpacity (VNumber (lit_frac 3 2)) w = Returns w
  /\ (forall w', setTopBarOpacity (VNumber (lit_frac 3 2)) w = Returns w' ->
        console w' = console w /\ hud w' = hud w)
  /\ (forall setter msg,
        In (setter, msg)
           [(setDialImageOpacity, "Invalid Dial Image Opacity value");
            (setDialMarkerOpacity, "Invalid Dial Marker Opacity value");
            (setGlobalFontOpacity, "Invalid Global Font Opacity value")] ->
        exists w', setter (VNumber (lit_frac 3 2)) w = Returns w'
                   /\ hud w' = hud w
                   /\ console w' = (console w ++ [{| level := LevelWarn; message := msg |}])%list).
Proof.
  split; [reflexivity|]. split; [reflexivity|]. split.
  - intros w' H. inversion H. auto.
  - intros setter msg [H|[H|[H|[]]]]; inversion H; subst;
      eexists; (split; [reflexivity|]); split; reflexivity.
Qed.

(** ** C8: a broadcast that the local user sent *)

(** C8. A socket message whose [userId] is the local user's id leaves the
    whole world as it was, the stored label and the weather text with it;
    the handler can only change anything for another originator. *)
Theorem C8_own_broadcast_ignored (data : SocketData) (w : World) :
  data_userId data = user_id (game w) ->
  on_socket data w = Returns w
  /\ (forall w', on_socket data w = Returns w' ->
        _currentWeather (hud w') = _currentWeather (hud w)
        /\ slot _weatherText w' = slot _weatherText w).
Proof.
  intros H.
  assert (E : on_socket data w = Returns w).
  { unfold on_socket. rewrite H, String.eqb_refl.
    cbn [negb]. now rewrite andb_false_r. }
  split; [exact E|]. intros w' E'. rewrite E in E'. inversion E'. auto.
Qed.

Lemma C8_own_broadcast_ignored_witness :
  data_userId {| data_type := "weather-update"; data_weather := "Stormy";
                 data_userId := "user-1" |} = user_id (game gm_world)
  /\ on_socket {| data_type := "weather-update"; data_weather := "Stormy";
                  data_userId := "user-1" |} gm_world = Returns gm_world.
Proof.
  split; [reflexivity|].
  exact (proj1 (C8_own_broadcast_ignored
                  {| data_type := "weather-update"; data_weather := "Stormy";
                     data_userId := "user-1" |} gm_world eq_refl)).
Defined.

Example other_broadcast_applied :
  exists w',
    on_socket {| data_type := "weather-update"; data_weather := "Stormy";
                 data_userId := "user-2" |} gm_world = Returns w'
    /\ _currentWeather (hud w') = "Stormy"
    /\ option_map text (slot _weatherText w') = Some "STORMY".
Proof.
  eexists. split; [vm_compute; reflexivity|]. split; vm_compute; reflexivity.
Qed.

(** ** C9: the calendar text *)

(** On a host where the global is declared, [updateCalendarDisplay]
    returns whatever the calendar module does, and with a calendar text in
    place it writes "SC not active" when the module is missing, inactive
    or without api, "SC: No object" or "SC: No date" when the call returns
    nothing or no usable date, and "SC: API Err" when the call throws. *)
Lemma updateCalendarDisplay_placeholders (w : World) :
  SimpleCalendar_declared (game w) = true ->
  exists w',
    updateCalendarDisplay w = Returns w'
    /\ (forall t, slot _calendarText w = Some t ->
          match simpleCalendar (game w) with
          | ScNotActive | ScNoApi => calendar_text w' = Some "SC not active"
          | ScUndeclared => False
          | ScApi ApiThrows => calendar_text w' = Some "SC: API Err"
          | ScApi (ApiReturns None) => calendar_text w' = Some "SC: No object"
          | ScApi (ApiReturns (Some c)) =>
              no_usable_date c = true -> calendar_text w' = Some "SC: No date"
          end).
Proof.
  unfold updateCalendarDisplay, calendar_text, SimpleCalendar_declared.
  intros Hd. destruct (slot _calendarText w) as [t|] eqn:Et.
  - unfold slot in Et.
    destruct (simpleCalendar (game w)) as [| | |[|[c|]]]; try discriminate;
      (eexists; split; [reflexivity|]; intros t' _;
       rewrite slot_on_hud, (nodes_update_same _ _ _ _ Et);
       cbn [option_map text with_text]; auto).
    unfold no_usable_date, displayDate_of. intros H.
    apply andb_prop in H. destruct H as [Hn Hx].
    apply negb_true_iff in Hx. rewrite Hx. now rewrite Hn.
  - exists w. split; [reflexivity|]. intros t H. discriminate.
Qed.

Example calendar_throws_placeholder :
  (exists t, slot _calendarText throwing_calendar_world = Some t)
  /\ exists w', updateCalendarDisplay throwing_calendar_world = Returns w'
                /\ calendar_text w' = Some "SC: API Err".
Proof.
  split; [eexists; vm_compute; reflexivity|].
  eexists. split; vm_compute; reflexivity.
Qed.

Example calendar_texts :
  displayDate_of None = "SC: No object"
  /\ displayDate_of (Some {| date := ""; day := "3"; monthName := ""; year := "";
                             yearPrefix := ""; yearPostfix := "" |}) = "SC: No date"
  /\ displayDate_of (Some {| date := "2020-05-03"; day := ""; monthName := "";
                             year := ""; yearPrefix := ""; yearPostfix := "" |})
     = "2020-05-03"
  /\ displayDate_of (Some {| date := "x"; day := "3"; monthName := "May";
                             year := "1492"; yearPrefix := ""; yearPostfix := " DR" |})
     = "3 May, 1492 DR".
Proof. repeat split; reflexivity. Qed.

(** ** The refresh after a redraw, and the calendar *)

Lemma updateTimeDisplay_calendarText (w : World) :
  slot _calendarText (updateTimeDisplay w) = slot _calendarText w.
Proof.
  unfold updateTimeDisplay. destruct (slot _timeText w); [|reflexivity].
  rewrite slot_on_hud. now apply nodes_update_other.
Qed.



Lemma on_updateWorldTime_throws (w : World) (t : Node) :
  simpleCalendar (game w) = ScUndeclared -> slot _calendarText w = Some t ->
  on_updateWorldTime w = Throws ReferenceError_SimpleCalendar.
Proof.
  intros Hg Ht. unfold on_updateWorldTime.
  rewrite (updateCalendarDisplay_throws (updateTimeDisplay w) t).
  - reflexivity.
  - now rewrite (kept_game _ _ (updateTimeDisplay_kept w)).
  - now rewrite updateTimeDisplay_calendarText.
Qed.

(** On such a host the constructor throws: its full redraw has made the
    calendar text that [updateCalendarDisplay] is then to fill. *)
Lemma constructor_throws (g : Game) :
  simpleCalendar g = ScUndeclared ->
  constructor g = Throws ReferenceError_SimpleCalendar.
Proof.
  intros Hg. unfold constructor.
  match goal with |- context [_redrawAllElements ?x] => set (w1 := x) end.
  assert (Hc1 : has_container w1 = true) by reflexivity.
  destruct (_redrawAllElements_spec w1 Hc1) as (w2 & E2 & _ & _ & _ & Eg2 & _).
  destruct (_redrawAllElements_fresh w1 w2 Hc1 E2) as (_ & (c & Ec & _) & _).
  rewrite E2. cbn [bind].
  rewrite (updateCalendarDisplay_throws (updateTimeDisplay w2) c).
  - reflexivity.
  - rewrite (kept_game _ _ (updateTimeDisplay_kept w2)), Eg2. exact Hg.
  - now rewrite updateTimeDisplay_calendarText.
Qed.

(** C9. On a host that reports the calendar module active while no global
    [SimpleCalendar] is declared, [updateCalendarDisplay] with a calendar
    text in place writes no placeholder: it throws a ReferenceError to its
    caller, and so do the world-time hook and the constructor; the
    constructor's own test for the [SimpleCalendar.DateTimeChange] hook
    returns false on that host and throws nothing. *)
Theorem C9_undeclared_global_throws (g : Game) :
  simpleCalendar g = ScUndeclared ->
  (forall w t, game w = g -> slot _calendarText w = Some t ->
     updateCalendarDisplay w = Throws ReferenceError_SimpleCalendar
     /\ on_updateWorldTime w = Throws ReferenceError_SimpleCalendar)
  /\ constructor g = Throws ReferenceError_SimpleCalendar
  /\ listens_to_DateTimeChange g = Returns false.
Proof.
  intros Hg. split; [|split].
  - intros w t Eg Ht. rewrite <- Eg in Hg. split.
    + exact (updateCalendarDisplay_throws w t Hg Ht).
    + exact (on_updateWorldTime_throws w t Hg Ht).
  - exact (constructor_throws g Hg).
  - unfold listens_to_DateTimeChange. now rewrite Hg.
Qed.

Lemma C9_undeclared_global_throws_witness :
  simpleCalendar (host true (lit 3661) (lit 90) ScUndeclared TextureLoaded)
  = ScUndeclared
  /\ constructor (host true (lit 3661) (lit 90) ScUndeclared TextureLoaded)
     = Throws ReferenceError_SimpleCalendar.
Proof.
  split; [reflexivity|].
  pose proof (C9_undeclared_global_throws
                (host true (lit 3661) (lit 90) ScUndeclared TextureLoaded) eq_refl)
    as H.
  destruct H as (_ & H & _). exact H.
Defined.

(** ** C10: what [setGlobalUiSize] accepts, and what it then does *)








(** A scale whose product with a base value is not a double: the product
    is rounded before [Math.round], as in the source.  0.20375 is read as
    the double next to it, 400 times that double is rounded to 81.5, and
    the width is 82. *)
Example scale_0_20375 :
  HUD_WIDTH (scaled_dimensions (lit_double 20375 100000)) =n= lit 82
  /\ mul64 (lit 400) (lit_double 20375 100000) =n= lit_frac 163 2
  /\ lit_double 20375 100000 = Fin (1835216848153477 # 9007199254740992)
  /\ lit_double 8 10 = Fin (3602879701896397 # 4503599627370496).
Proof. vm_compute. repeat split. Qed.

Example scale_2_scenario :
  let d := scaled_dimensions (lit 2) in
  HUD_WIDTH d =n= lit 800 /\ TIME_BAR_HEIGHT d =n= lit 64 /\
  MAIN_HUD_AREA_HEIGHT d =n= lit 300 /\ TOTAL_HUD_HEIGHT d =n= lit 364 /\
  DIAL_RADIUS d =n= lit 224 /\ DIAL_CENTER_X d =n= lit 400.
Proof. vm_compute. repeat split. Qed.

(** Values that are not numbers above 0 are rejected, [NaN] among them;
    the positive infinity is accepted. *)
Example setGlobalUiSize_guard :
  valid_scale (VNumber (lit 0)) = None /\ valid_scale (VNumber (lit (-1))) = None
  /\ valid_scale (VNumber NaN) = None /\ valid_scale (VString "2") = None
  /\ valid_scale VUndefined = None /\ valid_scale VNull = None
  /\ valid_scale (VNumber (Infinity true)) = Some (Infinity true).
Proof. repeat split; reflexivity. Qed.

(** ** C6: the weather label and its case *)

Lemma str_truthy_true (s : string) : str_truthy s = true <-> s <> "".
Proof. destruct s; simpl; split; congruence. Qed.

Lemma _saveWeatherToFlag_frame (weather : string) (w : World) :
  hud (_saveWeatherToFlag weather w) = hud w
  /\ user_id (game (_saveWeatherToFlag weather w)) = user_id (game w)
  /\ emitted (_saveWeatherToFlag weather w) = emitted w.
Proof.
  unfold _saveWeatherToFlag.
  destruct (settings_set_rejects (game w)); repeat split; reflexivity.
Qed.

Lemma dialog_update_callback_spec (d : WeatherDialog) (custom selectValue : string)
    (w : World) :
  weather_attached w = true ->
  let newWeather := str_or (trim custom) selectValue in
  if str_truthy newWeather && negb (String.eqb newWeather (dialog_currentWeather d))
  then
    exists w',
      dialog_update_callback d custom selectValue w = Returns w'
      /\ _currentWeather (hud w') = newWeather
      /\ (forall t, slot _weatherText w = Some t ->
            option_map text (slot _weatherText w') = Some (toUpperCase newWeather))
      /\ emitted w'
         = (emitted w ++ [{| data_type := "weather-update";
                             data_weather := newWeather;
                             data_userId := user_id (game w) |}])%list
      /\ weather_on_top w' = true
  else dialog_update_callback d custom selectValue w = Returns w.
Proof.
  intros Ha newWeather. unfold dialog_update_callback. fold newWeather.
  destruct (str_truthy newWeather
            && negb (String.eqb newWeather (dialog_currentWeather d))); auto.
  match goal with |- context [updateWeatherDisplay ?v ?x] => set (w0 := x) end.
  assert (Ha0 : weather_attached w0 = true)
    by (rewrite <- Ha; apply weather_attached_scene; reflexivity).
  destruct (updateWeatherDisplay_attached (VString newWeather) w0 Ha0)
    as (w1 & -> & Top1 & Eg1 & _ & _ & Ee1 & _ & Hw).
  cbn [bind]. eexists. split; [reflexivity|].
  change (slot _weatherText w0) with (slot _weatherText w) in Hw.
  change (game w0) with (game w) in Eg1.
  change (emitted w0) with (emitted w) in Ee1.
  set (w2 := notifications_info _ w1).
  destruct (_saveWeatherToFlag_frame newWeather w2) as (Eh & Eu & Ee).
  change (hud w2) with (hud w1) in Eh.
  change (game w2) with (game w1) in Eu.
  change (emitted w2) with (emitted w1) in Ee.
  unfold weather_on_top, kids, slot, socket_emit in *. cbn [hud set_emitted emitted].
  rewrite Eh, Eu, Ee, Eg1, Ee1.
  repeat split; auto.
  - destruct (nodes (hud w) _weatherText); [apply Hw | now subst w1].
  - intros t Et. rewrite Et in Hw. apply Hw.
Qed.

(** C6 as stated fails: with "CLEAR" current, submitting "clear" (the same
    label up to case) is taken as a change; it is stored, rendered and
    broadcast. *)
Lemma C6_case_insensitive_counterexample :
  exists d w',
    _showWeatherChangeDialog gm_world = Some d
    /\ dialog_currentWeather d = "CLEAR"
    /\ same_ignoring_case "clear" (dialog_currentWeather d) = true
    /\ dialog_update_callback d "clear" "Clear" gm_world = Returns w'
    /\ _currentWeather (hud w') = "clear"
    /\ emitted w' = [{| data_type := "weather-update"; data_weather := "clear";
                        data_userId := "user-1" |}]
    /\ w' <> gm_world.
Proof.
  eexists. eexists. split; [vm_compute; reflexivity|].
  split; [reflexivity|]. split; [reflexivity|].
  split; [vm_compute; reflexivity|].
  split; [reflexivity|]. split; [reflexivity|].
  intros E. apply (f_equal (fun x => _currentWeather (hud x))) in E.
  vm_compute in E. discriminate.
Qed.

(** C6, amended. The change check on a submitted weather value is an exact
    (case-sensitive) comparison with the label read when the dialog
    opened; a comparison up to case only marks the quick-select option.
    A submitted label that passes the check is stored as typed, rendered
    upper-cased and broadcast; "rainy" is rendered "RAINY". *)
Theorem C6_weather_label_case (w : World) (d : WeatherDialog)
    (custom selectValue : string) :
  weather_attached w = true ->
  let newWeather := str_or (trim custom) selectValue in
  ((newWeather = "" \/ newWeather = dialog_currentWeather d) ->
     dialog_update_callback d custom selectValue w = Returns w)
  /\ (newWeather <> "" -> newWeather <> dialog_currentWeather d ->
      exists w',
        dialog_update_callback d custom selectValue w = Returns w'
        /\ _currentWeather (hud w') = newWeather
        /\ (forall t, slot _weatherText w = Some t ->
              option_map text (slot _weatherText w') = Some (toUpperCase newWeather))
        /\ emitted w'
           = (emitted w ++ [{| data_type := "weather-update";
                               data_weather := newWeather;
                               data_userId := user_id (game w) |}])%list)
  /\ (forall d0, _showWeatherChangeDialog w = Some d0 ->
        dialog_currentWeather d0 = _currentWeather (hud w)
        /\ dialog_options d0
           = map (fun o => (o, same_ignoring_case o (_currentWeather (hud w))))
               weatherOptions)
  /\ toUpperCase "rainy" = "RAINY".
Proof.
  intros Ha newWeather.
  pose proof (dialog_update_callback_spec d custom selectValue w Ha) as S.
  cbv zeta in S. fold newWeather in S.
  split; [|split; [|split; [|reflexivity]]].
  - intros [H|H].
    + assert (E : str_truthy newWeather = false) by (now rewrite H).
      now rewrite E in S.
    + apply String.eqb_eq in H. rewrite H in S.
      cbn [negb] in S. now rewrite andb_false_r in S.
  - intros H1 H2. apply str_truthy_true in H1. apply String.eqb_neq in H2.
    rewrite H1, H2 in S. destruct S as (w' & E & El & Et & Ee & _).
    exists w'. auto.
  - intros d0. unfold _showWeatherChangeDialog.
    destruct (negb (user_isGM (game w))); [discriminate|].
    intros H. inversion H. split; reflexivity.
Qed.

Lemma C6_weather_label_case_witness :
  weather_attached gm_world = true
  /\ _showWeatherChangeDialog gm_world = Some clear_dialog
  /\ exists w',
       dialog_update_callback clear_dialog "rainy" "Clear" gm_world = Returns w'
       /\ _currentWeather (hud w') = "rainy"
       /\ option_map text (slot _weatherText w') = Some "RAINY".
Proof.
  split; [reflexivity|]. split; [vm_compute; reflexivity|].
  pose proof (C6_weather_label_case gm_world clear_dialog "rainy" "Clear" eq_refl)
    as H.
  cbv zeta in H. destruct H as (_ & H & _).
  assert (N1 : str_or (trim "rainy") "Clear" <> "") by discriminate.
  assert (N2 : str_or (trim "rainy") "Clear" <> dialog_currentWeather clear_dialog)
    by discriminate.
  destruct (H N1 N2) as (w' & E & El & Et & _).
  exists w'. split; [exact E|]. split; [exact El|].
  refine (Et _ _). vm_compute. reflexivity.
Defined.

(** ** The weather text shows the stored label in upper case *)

Lemma label_rendered_same (w w' : World) :
  option_map text (slot _weatherText w') = option_map text (slot _weatherText w) ->
  _currentWeather (hud w') = _currentWeather (hud w) ->
  label_rendered w' = label_rendered w.
Proof.
  unfold label_rendered. intros Et El. rewrite El.
  destruct (slot _weatherText w'), (slot _weatherText w); cbn in Et;
    congruence.
Qed.

Lemma kept_rendered (w w' : World) : kept w w' -> label_rendered w' = label_rendered w.
Proof. intros [g s x k t]. apply label_rendered_same; congruence. Qed.

Lemma _ensureWeatherTextOnTop_rendered (w w' : World) :
  _ensureWeatherTextOnTop w = Returns w' -> label_rendered w' = label_rendered w.
Proof.
  unfold _ensureWeatherTextOnTop.
  destruct (slot _weatherText w) as [t|] eqn:Et.
  - destruct (_mainContainer (hud w)) as [c|].
    + destruct (setChildIndex _ _ c); cbn [bind]; [|discriminate].
      intros H. inversion H. apply label_rendered_same; [|reflexivity].
      unfold console_log. rewrite slot_console_line, slot_on_hud.
      now rewrite nodes_assign_same, Et.
    + intros H. now inversion H.
  - intros H. destruct (_mainContainer (hud w)); now inversion H.
Qed.

(** Whenever [updateWeatherDisplay] returns, the weather text is the stored
    label in upper case. *)
Lemma updateWeatherDisplay_rendered (newStatus : JsValue) (w w' : World) :
  updateWeatherDisplay newStatus w = Returns w' -> label_rendered w' = true.
Proof.
  unfold updateWeatherDisplay.
  destruct (slot _weatherText w) as [t|] eqn:Et.
  - intros H. rewrite (_ensureWeatherTextOnTop_rendered _ _ H).
    unfold label_rendered, slot in *. rewrite slot_on_hud_nodes.
    destruct newStatus; cbv beta;
      (erewrite nodes_update_same; [|exact Et]); cbn [text with_text];
      unfold on_hud, update; cbn; rewrite Et; cbn; apply String.eqb_refl.
  - intros H. inversion H. subst. unfold label_rendered. now rewrite Et.
Qed.

Lemma refresh_content_rendered (w w' : World) :
  refresh_content w = Returns w' -> label_rendered w' = true.
Proof.
  unfold refresh_content.
  destruct (updateCalendarDisplay (updateTimeDisplay w)) as [w1|]; cbn [bind];
    [|discriminate].
  destruct (updateWeatherDisplay VUndefined w1) as [w2|] eqn:E; cbn [bind];
    [|discriminate].
  intros H. inversion H.
  rewrite (kept_rendered _ _ (_updateDialRotation_kept w2)).
  exact (updateWeatherDisplay_rendered _ _ _ E).
Qed.

(** ** An invariant of the running instance *)

Lemma weather_kept_refl (w : World) : weather_kept w w.
Proof. split; auto. intros c H. exists c. split; auto using incl_refl. Qed.

Lemma weather_kept_trans (w1 w2 w3 : World) :
  weather_kept w1 w2 -> weather_kept w2 w3 -> weather_kept w1 w3.
Proof.
  intros [g1 d1 i1 t1 l1 k1] [g2 d2 i2 t2 l2 k2]. split; try congruence.
  intros c H. destruct (k1 c H) as (c2 & H2 & I2).
  destruct (k2 c2 H2) as (c3 & H3 & I3). exists c3. split; auto.
  eapply incl_tran; eauto.
Qed.

Lemma kept_weather_kept (w w' : World) : kept w w' -> weather_kept w w'.
Proof.
  intros [g s x k t]. split; try congruence.
  - unfold style_of in s. now inversion s.
  - intros c H. exists c. split; [congruence | apply incl_refl].
Qed.

Lemma weather_kept_ok (w w' : World) :
  weather_kept w w' -> instance_ok w = true -> instance_ok w' = true.
Proof.
  intros [g d i t l k] H. unfold instance_ok, scene_ready in *.
  apply andb_prop in H. destruct H as [H Hd].
  apply andb_prop in H. destruct H as [H Hf].
  apply andb_prop in H. destruct H as [H Hl].
  apply andb_prop in H. destruct H as [Hc Ha].
  unfold SimpleCalendar_declared in *. rewrite g, Hd.
  rewrite (label_rendered_same w w') by auto. rewrite d, Hf, Hl, !andb_true_r.
  destruct (has_container_kids w Hc) as (c & Ec). unfold kids in k.
  destruct (k c Ec) as (c' & Ec' & I).
  unfold has_container, weather_attached, kids in *. rewrite Ec'. cbn [andb].
  rewrite Ec in Ha.
  destruct (slot _weatherText w') as [t'|], (slot _weatherText w) as [t0|];
    cbn in i; try discriminate; auto.
  injection i as i. rewrite i. apply existsb_In. apply I. now apply existsb_In.
Qed.

Lemma incl_addChild (id : nat) (c : list nat) : incl c (addChild id c).
Proof.
  intros x H. apply In_addChild.
  destruct (Nat.eq_dec x id); [now left | now right].
Qed.

Ltac solve_weather_kept Ec :=
  split; cbn; auto;
  intros c0 H; unfold kids in H; rewrite Ec in H; inversion H; subst c0;
  unfold kids; cbn; rewrite ?Ec; cbn;
  eexists; (split; [reflexivity|]); auto using incl_refl, incl_addChild.

Lemma _drawTimeBar_weather_kept (w : World) : weather_kept w (_drawTimeBar w).
Proof.
  unfold _drawTimeBar.
  destruct (_mainContainer (hud w)) as [c|] eqn:Ec; [|apply weather_kept_refl].
  unfold on_hud, update, new_object, mainContainer_addChild, slot.
  destruct (nodes (hud w) _timeBarGraphic) eqn:Eg; cbn; rewrite ?Eg; cbn;
    solve_weather_kept Ec.
Qed.

Lemma _drawDialMarker_weather_kept (w : World) : weather_kept w (_drawDialMarker w).
Proof.
  unfold _drawDialMarker.
  destruct (_mainContainer (hud w)) as [c|] eqn:Ec; [|apply weather_kept_refl].
  unfold on_hud, new_object, mainContainer_addChild, slot.
  destruct (nodes (hud w) _dialMarker) eqn:Eg; cbn; solve_weather_kept Ec.
Qed.

Lemma update_weather_kept (s : Slot) (f : Node -> Node) (w : World) :
  keeps_id_and_text f -> weather_kept w (on_hud (update s f) w).
Proof.
  intros Hf. unfold on_hud, update, kids, slot.
  destruct (nodes (hud w) s) as [n|] eqn:En; [|destruct w; apply weather_kept_refl].
  destruct (Hf n) as [Hi Ht].
  split; unfold slot, kids, assign;
    cbn [hud set_hud nodes set_nodes _mainContainer _currentWeather]; auto.
  - destruct (Slot_eq_dec _weatherText s);
      [subst; rewrite En; cbn; congruence | reflexivity].
  - destruct (Slot_eq_dec _weatherText s);
      [subst; rewrite En; cbn; congruence | reflexivity].
  - intros c H. exists c. split; auto using incl_refl.
Qed.

Lemma with_alpha_keeps (a : number) : keeps_id_and_text (with_alpha a).
Proof. intros n. split; reflexivity. Qed.

Lemma with_visible_keeps (b : bool) : keeps_id_and_text (with_visible b).
Proof. intros n. split; reflexivity. Qed.

Lemma update_alpha_weather_kept (s : Slot) (a : number) (w : World) :
  weather_kept w (on_hud (update s (with_alpha a)) w).
Proof. apply update_weather_kept, with_alpha_keeps. Qed.

Lemma fold_alpha_weather_kept (a : number) (slots : list Slot) (w : World) :
  weather_kept w
    (on_hud (fun h => fold_left (fun h' el => update el (with_alpha a) h') slots h) w).
Proof.
  revert w. induction slots as [|s r IH]; intros w.
  - destruct w; apply weather_kept_refl.
  - cbn [fold_left].
    eapply weather_kept_trans; [apply (update_alpha_weather_kept s a)|].
    exact (IH (on_hud (update s (with_alpha a)) w)).
Qed.

Lemma instance_ok_parts (w : World) :
  instance_ok w = true
  <-> has_container w = true /\ weather_attached w = true
      /\ label_rendered w = true /\ floors_hold (dims (hud w)) = true
      /\ SimpleCalendar_declared (game w) = true.
Proof.
  unfold instance_ok, scene_ready. rewrite !andb_true_iff. tauto.
Qed.

Lemma instance_ok_on_top (w : World) :
  has_container w = true -> weather_on_top w = true -> label_rendered w = true ->
  floors_hold (dims (hud w)) = true ->
  SimpleCalendar_declared (game w) = true ->
  instance_ok w = true.
Proof.
  intros. apply instance_ok_parts. auto using weather_on_top_attached.
Qed.

Lemma style_dims (h h' : SolunaDial) : style_of h' = style_of h -> dims h' = dims h.
Proof. unfold style_of. intros E. now inversion E. Qed.

(** The floors hold at every scale that [setGlobalUiSize] stores. *)
Lemma floors_valid_scale (scale : JsValue) (s : number) :
  valid_scale scale = Some s -> floors_hold (scaled_dimensions s) = true.
Proof.
  intros H. apply valid_scale_Some in H. destruct H as [_ H].
  destruct s as [q| |[|]]; try discriminate.
  - apply scaled_dimensions_floors.
  - apply scaled_dimensions_floors_Infinity.
Qed.

Lemma returns_kept_ok (w w' : World) :
  weather_kept w w' -> instance_ok w = true ->
  exists w'', Returns w' = Returns w'' /\ instance_ok w'' = true.
Proof. intros K H. exists w'. split; auto. eapply weather_kept_ok; eauto. Qed.

(** The weather text, the label and the children are literally the same. *)
Ltac weather_same :=
  split; [reflexivity | reflexivity | reflexivity | reflexivity | reflexivity
         | intros c0 Hk; exists c0; split; [exact Hk | apply incl_refl]].

Lemma weather_kept_console (l : LogLevel) (msg : string) (w : World) :
  weather_kept w (console_line l msg w).
Proof. weather_same. Qed.

Lemma redraw_refresh_ok (w : World) :
  has_container w = true -> floors_hold (dims (hud w)) = true ->
  SimpleCalendar_declared (game w) = true ->
  exists w',
    (w1 <- _redrawAllElements w ;; refresh_content w1) = Returns w'
    /\ instance_ok w' = true.
Proof.
  intros Hc Hf Hd.
  destruct (_redrawAllElements_spec w Hc)
    as (w1 & -> & Top1 & _ & Hc1 & Eg1 & Es1 & _).
  cbn [bind].
  assert (Hd1 : SimpleCalendar_declared (game w1) = true) by congruence.
  destruct (refresh_content_spec w1 (weather_on_top_attached _ Top1) Hd1)
    as (w' & E & Top & Hc' & Eg' & Es' & _).
  exists w'. split; [exact E|].
  apply instance_ok_on_top; try congruence.
  - exact (refresh_content_rendered _ _ E).
  - now rewrite (style_dims _ _ Es'), (style_dims _ _ Es1).
Qed.

Lemma weather_update_ok (newStatus : JsValue) (w : World) :
  weather_attached w = true -> has_container w = true ->
  floors_hold (dims (hud w)) = true ->
  SimpleCalendar_declared (game w) = true ->
  exists w',
    updateWeatherDisplay newStatus w = Returns w'
    /\ instance_ok w' = true
    /\ weather_on_top w' = true.
Proof.
  intros Ha Hc Hf Hd.
  destruct (updateWeatherDisplay_attached newStatus w Ha)
    as (w' & E & Top & Eg & Es & Hc' & _).
  exists w'. split; [exact E|]. split; [|exact Top].
  apply instance_ok_on_top; try congruence.
  - exact (updateWeatherDisplay_rendered _ _ _ E).
  - now rewrite (style_dims _ _ Es).
Qed.

Lemma ensure_ok (w : World) :
  instance_ok w = true ->
  exists w', _ensureWeatherTextOnTop w = Returns w' /\ instance_ok w' = true.
Proof.
  intros H. apply instance_ok_parts in H. destruct H as (Hc & Ha & Hl & Hf & Hd).
  destruct (_ensureWeatherTextOnTop_attached w Ha) as (w' & E & T).
  exists w'. split; [exact E|]. destruct T as [Top Eg Es _ Ec _ _ _ _ _ _].
  apply instance_ok_on_top; try congruence.
  - now rewrite (_ensureWeatherTextOnTop_rendered _ _ E).
  - now rewrite (style_dims _ _ Es).
Qed.

(** Every call on an instance in that state returns, and leaves the
    instance in that state. *)
Theorem instance_ok_invariant (c : Call) (w : World) :
  instance_ok w = true ->
  exists w', run c w = Returns w' /\ instance_ok w' = true.
Proof.
  intros H. pose proof H as H0. apply instance_ok_parts in H0.
  destruct H0 as (Hc & Ha & Hl & Hf & Hd).
  destruct c
    as [v|v|v|v|v|v|v|v|v|v|v|delta|data|weather|d custom selectValue|cb];
    cbn [run].
  - unfold setTopBarOpacity. destruct (valid_opacity v) as [n|].
    + apply (returns_kept_ok w); auto.
      eapply weather_kept_trans; [|apply _drawTimeBar_weather_kept].
      weather_same.
    + eauto.
  - unfold setDialImageOpacity. destruct (valid_opacity v) as [n|].
    + apply (returns_kept_ok w); auto.
      eapply weather_kept_trans; [|apply weather_kept_console].
      apply (weather_kept_trans _ (on_hud (set_dialImageOpacity n) w));
        [weather_same|].
      exact (update_alpha_weather_kept _dialGradientSprite n
               (on_hud (set_dialImageOpacity n) w)).
    + apply (returns_kept_ok w); auto. apply weather_kept_console.
  - unfold setDialMarkerOpacity. destruct (valid_opacity v) as [n|].
    + destruct (slot _dialMarker _); apply (returns_kept_ok w); auto.
      * eapply weather_kept_trans; [|apply _drawDialMarker_weather_kept].
        weather_same.
      * weather_same.
    + apply (returns_kept_ok w); auto. apply weather_kept_console.
  - unfold setGlobalFontOpacity. destruct (valid_opacity v) as [n|].
    + apply (returns_kept_ok w); auto.
      apply (weather_kept_trans _ (on_hud (set_globalFontOpacity n) w));
        [weather_same|].
      exact (fold_alpha_weather_kept n textElements
               (on_hud (set_globalFontOpacity n) w)).
    + apply (returns_kept_ok w); auto. apply weather_kept_console.
  - unfold setToggleSecondsDisplay. apply (returns_kept_ok w); auto.
    eapply weather_kept_trans;
      [|apply kept_weather_kept, updateTimeDisplay_kept].
    weather_same.
  - unfold setToggleCalendarDisplay. apply (returns_kept_ok w); auto.
    apply (weather_kept_trans _
             (on_hud (update _calendarText (with_visible (truthy v))) w)).
    + apply update_weather_kept, with_visible_keeps.
    + exact (update_weather_kept _timeCalendarSeparator _ _ (with_visible_keeps _)).
  - unfold setToggleWeatherDisplay. apply (returns_kept_ok w); auto.
    apply update_weather_kept, with_visible_keeps.
  - unfold setToggleDialMarker. apply (returns_kept_ok w); auto.
    apply update_weather_kept, with_visible_keeps.
  - unfold setCustomDialImageAngleOffset.
    destruct v as [| |b|n|s|]; try (apply (returns_kept_ok w); auto; apply weather_kept_console).
    destruct ((n >=? lit 0) && (n <=? lit 360));
      apply (returns_kept_ok w); auto; try apply weather_kept_console.
    eapply weather_kept_trans;
      [|apply kept_weather_kept, _updateDialRotation_kept].
    apply weather_kept_console.
  - unfold setGlobalFontFamily.
    destruct v as [| |b|n|s|];
      try (apply (returns_kept_ok w); auto; apply weather_kept_console).
    destruct (negb (trim s =? "")%string).
    + destruct (redraw_refresh_ok (on_hud (set_globalFontFamily s) w) Hc Hf Hd)
        as (w' & E & Hok).
      unfold bind in E.
      destruct (_redrawAllElements (on_hud (set_globalFontFamily s) w));
        [|discriminate].
      cbn [bind]. rewrite E. cbn [bind]. eexists. split; [reflexivity|].
      exact Hok.
    + destruct (s =? "")%string; apply (returns_kept_ok w); auto.
      * eapply weather_kept_trans; [|apply weather_kept_console].
        weather_same.
      * apply weather_kept_console.
  - unfold setGlobalUiSize. destruct (valid_scale v) as [s|] eqn:Hv.
    + destruct (setGlobalUiSize_accepts v s w Hc Hd Hv)
        as (w3 & w4 & w' & E & _ & Ed & _ & E4 & E' & Est & Top & Hc' & Eg').
      unfold setGlobalUiSize in E. rewrite Hv in E.
      exists w'. split; [exact E|].
      apply instance_ok_on_top; auto.
      * exact (refresh_content_rendered _ _ E').
      * rewrite (style_dims _ _ Est), Ed.
        exact (floors_valid_scale _ _ Hv).
      * now rewrite Eg'.
    + apply (returns_kept_ok w); auto. apply weather_kept_console.
  - unfold game_time_advance, on_updateWorldTime.
    match goal with
    | |- context [updateCalendarDisplay ?x] =>
        assert (Hdx : SimpleCalendar_declared (game x) = true)
          by (rewrite (kept_game _ _ (updateTimeDisplay_kept _)); exact Hd);
        destruct (updateCalendarDisplay_returns x Hdx) as (w1 & -> & K1)
    end.
    cbn [bind]. apply (returns_kept_ok w); auto.
    eapply weather_kept_trans;
      [|apply kept_weather_kept, _updateDialRotation_kept].
    eapply weather_kept_trans; [|apply kept_weather_kept, K1].
    eapply weather_kept_trans;
      [|apply kept_weather_kept, updateTimeDisplay_kept].
    weather_same.
  - unfold on_socket.
    destruct ((data_type data =? "weather-update")%string
              && negb (data_userId data =? user_id (game w))%string); [|eauto].
    match goal with |- context [updateWeatherDisplay ?v ?x] => set (w2 := x) end.
    destruct (weather_update_ok (VString (data_weather data)) w2 Ha Hc Hf Hd)
      as (w3 & -> & Hok & _).
    cbn [bind]. now apply ensure_ok.
  - unfold onChange_currentWeather.
    match goal with |- context [updateWeatherDisplay ?v ?x] => set (w1 := x) end.
    destruct (weather_update_ok (VString weather) w1 Ha Hc Hf Hd)
      as (w2 & -> & Hok & _).
    cbn [bind]. destruct (ensure_ok w2 Hok) as (w3 & -> & Hok3).
    cbn [bind]. eexists. split; [reflexivity|]. exact Hok3.
  - unfold dialog_update_callback.
    match goal with |- context [if ?b then _ else _] => destruct b end; [|eauto].
    match goal with |- context [updateWeatherDisplay ?v ?x] => set (w1 := x) end.
    destruct (weather_update_ok (VString (str_or (trim custom) selectValue))
                w1 Ha Hc Hf Hd)
      as (w2 & -> & Hok & _).
    cbn [bind]. eexists. split; [reflexivity|].
    unfold _saveWeatherToFlag, notifications_info.
    match goal with |- context [if ?b then _ else _] => destruct b end; exact Hok.
  - destruct cb; cbn [run_callback].
    + now apply ensure_ok.
    + unfold _loadWeatherFromFlag.
      match goal with |- context [updateWeatherDisplay ?v ?x] => set (w1 := x) end.
      assert (Ha1 : weather_attached w1 = true /\ has_container w1 = true
                    /\ floors_hold (dims (hud w1)) = true
                    /\ SimpleCalendar_declared (game w1) = true).
      { unfold w1. destruct (str_truthy (settings_currentWeather (game w)));
          repeat split; assumption. }
      destruct Ha1 as (Ha1 & Hc1 & Hf1 & Hd1).
      destruct (weather_update_ok (VString (_currentWeather (hud w1))) w1
                  Ha1 Hc1 Hf1 Hd1)
        as (w2 & -> & Hok & _).
      cbn [bind]. now apply ensure_ok.
Qed.

(** On a host where the global is declared, the constructor returns and
    leaves the instance in that state. *)
Theorem constructor_ok (g : Game) :
  SimpleCalendar_declared g = true ->
  exists w, constructor g = Returns w /\ instance_ok w = true.
Proof.
  intros Hd. unfold constructor.
  match goal with |- context [_redrawAllElements ?x] => set (w1 := x) end.
  assert (Hc1 : has_container w1 = true) by reflexivity.
  destruct (_redrawAllElements_spec w1 Hc1)
    as (w2 & -> & Top2 & (t & Et & Ex) & Hc2 & Eg2 & Es2 & Ew2).
  cbn [bind].
  assert (Hd2 : SimpleCalendar_declared (game (updateTimeDisplay w2)) = true).
  { rewrite (kept_game _ _ (updateTimeDisplay_kept w2)), Eg2. exact Hd. }
  destruct (updateCalendarDisplay_returns (updateTimeDisplay w2) Hd2)
    as (w3 & -> & K3).
  cbn [bind].
  assert (K4 : kept w2 (_updateDialRotation w3)).
  { eapply kept_trans; [apply updateTimeDisplay_kept|].
    eapply kept_trans; [exact K3 | apply _updateDialRotation_kept]. }
  set (w4 := _updateDialRotation w3) in *.
  assert (Hok4 : instance_ok w4 = true).
  { apply instance_ok_on_top.
    - now rewrite (kept_container _ _ K4).
    - now rewrite (kept_on_top _ _ K4).
    - rewrite (kept_rendered _ _ K4). unfold label_rendered.
      rewrite Et, Ex, Ew2. reflexivity.
    - destruct K4 as [_ Es4 _ _ _].
      rewrite (style_dims _ _ Es4), (style_dims _ _ Es2).
      apply (scaled_dimensions_floors 1).
    - rewrite (kept_game _ _ K4), Eg2. exact Hd. }
  destruct (game_ready g).
  - destruct (instance_ok_invariant (Call_timeout LoadWeatherFromFlag) w4 Hok4)
      as (w5 & E & Hok5).
    cbn [run run_callback] in E. rewrite E. cbn [bind].
    eexists. split; [reflexivity|]. exact Hok5.
  - cbn [bind]. eexists. split; [reflexivity|]. exact Hok4.
Qed.

(** [new SolunaDial()] returns on exactly the hosts where the global
    [SimpleCalendar] is declared whenever the calendar module is active. *)
Theorem constructor_returns_iff (g : Game) :
  (exists w, constructor g = Returns w) <-> SimpleCalendar_declared g = true.
Proof.
  split.
  - intros (w & E). unfold SimpleCalendar_declared.
    destruct (simpleCalendar g) eqn:Eg; try reflexivity.
    rewrite (constructor_throws g Eg) in E. discriminate.
  - intros Hd. destruct (constructor_ok g Hd) as (w & E & _). eauto.
Qed.
